(** * js-java-properties: a shallow embedding of [src/properties.ts]

    The library keeps a Java properties file as an array of raw lines and
    re-tokenizes that array on every read and write.  This development
    embeds the line splitter, the tokenizer state machine, the entry
    index/mutator and the escape codec, and proves properties of them.

    Strings are [string] (lists of [ascii]): the model covers strings whose
    UTF-16 code units are below 256, for which code units and code points
    coincide.  Line numbers are [Z], as the tokenizer starts from [-1]. *)

From Stdlib Require Import ZArith Ascii String Bool Lia.
From stdpp Require Import gmap strings list.

(** stdpp keeps [simpl] from unfolding string concatenation; the proofs
    below compute with it. *)
#[local] Arguments String.append !s1 s2 / : simpl nomatch.

(** ** Characters the source names *)

Abbreviation LF := ("010"%char) (only parsing).
Abbreviation CR := ("013"%char) (only parsing).
Abbreviation TAB := ("009"%char) (only parsing).
Abbreviation FF := ("012"%char) (only parsing).
Abbreviation BSL := ("\"%char) (only parsing).

(** A one-character string. *)
Abbreviation str c := (String c EmptyString) (only parsing).

(** ** Data model *)

(** [type Properties = { lines: string[] }] *)
Record Properties := { lines : list string }.

(** [type KeyValuePair = { key: string, value: string }] *)
Record KeyValuePair := { kv_key : string; kv_value : string }.

(** [empty = () => ({lines: []})] *)
Definition empty_ : Properties := {| lines := [] |}.

(** ** Line splitter *)

(** [contents.split(/\r\n|\r|\n/)]: the pattern never matches the empty
    string, so the result always has at least one element; at a CR the
    alternative [\r\n] is tried first. *)
Fixpoint split_terminators (s : string) : list string :=
  match s with
  | EmptyString => [""]
  | String c rest =>
      if Ascii.eqb c CR then
        match rest with
        | String d rest' =>
            if Ascii.eqb d LF then "" :: split_terminators rest'
            else "" :: split_terminators rest
        | EmptyString => "" :: split_terminators rest
        end
      else if Ascii.eqb c LF then "" :: split_terminators rest
      else
        match split_terminators rest with
        | l :: ls => String c l :: ls
        | [] => [str c]
        end
  end.

(** [lines[i].length === 0], for an index inside the array. *)
Definition line_empty (ls : list string) (i : nat) : bool :=
  match ls !! i with
  | Some l => (String.length l =? 0)%nat
  | None => false
  end.

(** [parse]: split, then pop the last line when it is empty. *)
Definition parse (contents : string) : Properties :=
  let ls := split_terminators contents in
  let ls :=
    if (0 <? length ls)%nat && line_empty ls (length ls - 1)
    then removelast ls else ls in
  {| lines := ls |}.

(** [Array.prototype.join]. *)
Fixpoint join (sep : string) (ls : list string) : string :=
  match ls with
  | [] => ""
  | [l] => l
  | l :: rest => l +:+ sep +:+ join sep rest
  end.

(** The [while] loop of [stringify]:
    [while (start < lines.length - 1 && lines[start].length === 0) start++].
    Every iteration increases [start], which stays below [lines.length], so
    [length ls] iterations are enough (see [stringify_start_exit]). *)
Fixpoint stringify_start (fuel : nat) (ls : list string) (start : nat) : nat :=
  match fuel with
  | O => start
  | S fuel' =>
      if (Z.of_nat start <? Z.of_nat (length ls) - 1)%Z && line_empty ls start
      then stringify_start fuel' ls (S start)
      else start
  end.

(** [stringify]: drop leading empty lines, add a trailing empty line when
    the last line is not empty, join with LF. *)
Definition stringify (config : Properties) : string :=
  let ls := lines config in
  let start := stringify_start (length ls) ls 0 in
  let ls := drop start ls in
  let ls :=
    if (0 <? length ls)%nat && negb (line_empty ls (length ls - 1))
    then ls ++ [""] else ls in
  join (str LF) ls.

(** ** Tokenizer *)

(** [enum State] *)
Inductive State := START | COMMENT | KEY | SEPARATOR | VALUE.

Definition State_eqb (a b : State) : bool :=
  match a, b with
  | START, START | COMMENT, COMMENT | KEY, KEY
  | SEPARATOR, SEPARATOR | VALUE, VALUE => true
  | _, _ => false
  end.

(** The elements of the [chars] generator: a character of a line, or the
    marker ['EOL'] (a three-character string, so never equal to a
    character of a line). *)
Inductive Char := Ch (c : ascii) | EOL.

(** The object built by [newState()] and mutated by the loop. *)
Record TokState := {
  state : State;
  start : Z;
  key : string;
  sep : string;
  value : string;
  skipSpace : bool;
  escapedNext : bool
}.

Definition newState : TokState :=
  {| state := START; start := -1; key := ""; sep := ""; value := "";
     skipSpace := true; escapedNext := false |}.

(** Field assignments [state.f = x]. *)
Definition set_state (x : State) (st : TokState) : TokState :=
  {| state := x; start := start st; key := key st; sep := sep st;
     value := value st; skipSpace := skipSpace st;
     escapedNext := escapedNext st |}.
Definition set_start (x : Z) (st : TokState) : TokState :=
  {| state := state st; start := x; key := key st; sep := sep st;
     value := value st; skipSpace := skipSpace st;
     escapedNext := escapedNext st |}.
Definition set_key (x : string) (st : TokState) : TokState :=
  {| state := state st; start := start st; key := x; sep := sep st;
     value := value st; skipSpace := skipSpace st;
     escapedNext := escapedNext st |}.
Definition set_sep (x : string) (st : TokState) : TokState :=
  {| state := state st; start := start st; key := key st; sep := x;
     value := value st; skipSpace := skipSpace st;
     escapedNext := escapedNext st |}.
Definition set_value (x : string) (st : TokState) : TokState :=
  {| state := state st; start := start st; key := key st; sep := sep st;
     value := x; skipSpace := skipSpace st;
     escapedNext := escapedNext st |}.
Definition set_skipSpace (x : bool) (st : TokState) : TokState :=
  {| state := state st; start := start st; key := key st; sep := sep st;
     value := value st; skipSpace := x;
     escapedNext := escapedNext st |}.
Definition set_escapedNext (x : bool) (st : TokState) : TokState :=
  {| state := state st; start := start st; key := key st; sep := sep st;
     value := value st; skipSpace := skipSpace st;
     escapedNext := x |}.

(** What [listPairs] yields: [{...state, len}].  Its declared element type
    has the five fields below; the other copied fields are never read. *)
Record Entry := {
  pair_start : Z;
  pair_len : Z;
  pair_sep : string;
  pair_key : string;
  pair_value : string
}.

(** [{...state, len: line - state.start + 1}] *)
Definition yield_entry (st : TokState) (line : Z) : Entry :=
  {| pair_start := start st; pair_len := line - start st + 1;
     pair_sep := sep st; pair_key := key st; pair_value := value st |}.

(** [unescapeChar] *)
Definition unescapeChar (c : ascii) : ascii :=
  if Ascii.eqb c "r" then CR
  else if Ascii.eqb c "t" then TAB
  else if Ascii.eqb c "n" then LF
  else if Ascii.eqb c "f" then FF
  else c.

(** [chars]: every character of every line with its line number, and an
    EOL after each line. *)
Definition line_chars (i : Z) (l : string) : list (Char * Z) :=
  map (fun c => (Ch c, i)) (list_ascii_of_string l) ++ [(EOL, i)].

Fixpoint chars_from (i : Z) (ls : list string) : list (Char * Z) :=
  match ls with
  | [] => []
  | l :: rest => line_chars i l ++ chars_from (i + 1) rest
  end.

Definition chars (ls : list string) : list (Char * Z) := chars_from 0 ls.

(** [state.sep.match(/[=:]/)] *)
Fixpoint has_separator_char (s : string) : bool :=
  match s with
  | EmptyString => false
  | String c rest => Ascii.eqb c "=" || Ascii.eqb c ":" || has_separator_char rest
  end.

(** [if (state.state === State.START) switch (char) ...] *)
Definition on_START (st : TokState) (char : Char) (line : Z) : TokState :=
  match state st with
  | START =>
      match char with
      | EOL => st
      | Ch c =>
          if Ascii.eqb c "#" || Ascii.eqb c "!"
          then set_start line (set_state COMMENT st)
          else set_start line (set_state KEY st)
      end
  | _ => st
  end.

(** [if (state.state === State.KEY) switch (char) ...] *)
Definition on_KEY (st : TokState) (char : Char) (line : Z)
  : TokState * list Entry :=
  match state st with
  | KEY =>
      match char with
      | EOL =>
          if escapedNext st
          then (set_skipSpace true (set_escapedNext false st), [])
          else (newState, [yield_entry st line])
      | Ch c =>
          if Ascii.eqb c " " || Ascii.eqb c "=" || Ascii.eqb c ":" then
            if escapedNext st
            then (set_key (key st +:+ str c) (set_escapedNext false st), [])
            else (set_state SEPARATOR st, [])
          else if Ascii.eqb c BSL then
            if escapedNext st
            then (set_key (key st +:+ str c) (set_escapedNext false st), [])
            else (set_escapedNext true st, [])
          else
            (set_escapedNext false
               (set_key (key st +:+
                         str (if escapedNext st then unescapeChar c else c)) st),
             [])
      end
  | _ => (st, [])
  end.

(** [if (state.state === State.SEPARATOR) switch (char) ...] *)
Definition on_SEPARATOR (st : TokState) (char : Char) (line : Z)
  : TokState * list Entry :=
  match state st with
  | SEPARATOR =>
      match char with
      | EOL => (newState, [yield_entry st line])
      | Ch c =>
          if Ascii.eqb c " " then (set_sep (sep st +:+ str c) st, [])
          else if Ascii.eqb c "=" || Ascii.eqb c ":" then
            if has_separator_char (sep st)
            then (set_state VALUE st, [])
            else (set_sep (sep st +:+ str c) st, [])
          else (set_state VALUE st, [])
      end
  | _ => (st, [])
  end.

(** [if (state.state === State.VALUE) switch (char) ...] *)
Definition on_VALUE (st : TokState) (char : Char) (line : Z)
  : TokState * list Entry :=
  match state st with
  | VALUE =>
      match char with
      | EOL =>
          if escapedNext st
          then (set_skipSpace true (set_escapedNext false st), [])
          else (newState, [yield_entry st line])
      | Ch c =>
          if Ascii.eqb c BSL then
            if escapedNext st
            then (set_value (value st +:+ str c) (set_escapedNext false st), [])
            else (set_escapedNext true st, [])
          else
            (set_escapedNext false
               (set_value (value st +:+
                           str (if escapedNext st then unescapeChar c else c)) st),
             [])
      end
  | _ => (st, [])
  end.

Definition is_space (char : Char) : bool :=
  match char with Ch c => Ascii.eqb c " " | EOL => false end.

Definition is_EOL (char : Char) : bool :=
  match char with EOL => true | Ch _ => false end.

(** One iteration of the [for (const {char, line} of chars(lines))] loop:
    the state after it and what it yielded.  The two [continue]s return
    early; the blocks for KEY, SEPARATOR and VALUE run one after the other
    on the state the previous block left. *)
Definition step (st : TokState) (char : Char) (line : Z)
  : TokState * list Entry :=
  if skipSpace st && is_space char then (st, [])
  else
    let st := set_skipSpace false st in
    let st := on_START st char line in
    if State_eqb (state st) COMMENT then
      ((if is_EOL char then newState else st), [])
    else
      let '(st, y1) := on_KEY st char line in
      let '(st, y2) := on_SEPARATOR st char line in
      let '(st, y3) := on_VALUE st char line in
      (st, y1 ++ y2 ++ y3).

(** The loop over a stream of characters, from a given state. *)
Fixpoint run (st : TokState) (cs : list (Char * Z)) : TokState * list Entry :=
  match cs with
  | [] => (st, [])
  | (char, line) :: rest =>
      let '(st', ys) := step st char line in
      let '(st'', ys') := run st' rest in
      (st'', ys ++ ys')
  end.

(** [listPairs(lines)]: everything the generator yields, in order. *)
Definition listPairs (ls : list string) : list Entry :=
  snd (run newState (chars ls)).

(** ** Entry index and mutator *)

(** [list]: the key and value of every entry. *)
Definition list_ (config : Properties) : list KeyValuePair :=
  map (fun e => {| kv_key := pair_key e; kv_value := pair_value e |})
      (listPairs (lines config)).

(** What [findValue] returns: the entry itself when found (always with a
    value), otherwise [{start: -1, len: 0, sep}] with no value. *)
Record Found := {
  found_start : Z;
  found_len : Z;
  found_sep : string;
  found_value : option string
}.

(** A string used as a condition: [if (entry.sep)], [sep || '=']. *)
Definition truthy (s : string) : bool := negb (String.eqb s "").

(** The loop of [findValue] over the entries the generator yields, with the
    separator remembered so far. *)
Fixpoint findValue_loop (sep0 : string) (es : list Entry) (k : string) : Found :=
  match es with
  | [] => {| found_start := -1; found_len := 0; found_sep := sep0;
             found_value := None |}
  | entry :: rest =>
      let sep1 := if truthy (pair_sep entry) then pair_sep entry else sep0 in
      if String.eqb k (pair_key entry)
      then {| found_start := pair_start entry; found_len := pair_len entry;
              found_sep := pair_sep entry;
              found_value := Some (pair_value entry) |}
      else findValue_loop sep1 rest k
  end.

Definition findValue (ls : list string) (k : string) : Found :=
  findValue_loop "=" (listPairs ls) k.

(** [get]: [undefined] is [None]. *)
Definition get (config : Properties) (k : string) : option string :=
  found_value (findValue (lines config) k).

(** [result[key] = value] on an object created by [{}]: the key
    ["__proto__"] reaches the setter inherited from [Object.prototype],
    which ignores a string, so no own property is created for it. *)
Definition object_assign (result : gmap string string) (k v : string)
  : gmap string string :=
  if String.eqb k "__proto__" then result else <[k := v]> result.

(** [toObject]: the own properties of the result. *)
Definition toObject (config : Properties) : gmap string string :=
  foldl (fun result e => object_assign result (pair_key e) (pair_value e))
        ∅ (listPairs (lines config)).

(** [toMap] *)
Definition toMap (config : Properties) : gmap string string :=
  foldl (fun result e => <[pair_key e := pair_value e]> result)
        ∅ (listPairs (lines config)).

(** [Array.prototype.splice(start, deleteCount, ...items)], with the
    clamping of both arguments to the array. *)
Definition splice {A} (l : list A) (start0 deleteCount : Z) (items : list A)
  : list A :=
  let n := Z.of_nat (length l) in
  let actualStart :=
    if (start0 <? 0)%Z then Z.max (n + start0) 0 else Z.min start0 n in
  let actualDeleteCount := Z.min (Z.max deleteCount 0) (n - actualStart) in
  take (Z.to_nat actualStart) l ++ items ++
  drop (Z.to_nat (actualStart + actualDeleteCount)) l.

(** ** Escape codec *)

(** [str.replace(/\\(.)/g, s => unescapeChar(s[1]))]: [.] does not match a
    line terminator, so a backslash before CR or LF is not the start of a
    match and is copied.  (The other two line terminators of JavaScript,
    U+2028 and U+2029, are outside the strings modelled.) *)
Definition is_line_terminator (c : ascii) : bool :=
  Ascii.eqb c LF || Ascii.eqb c CR.

Fixpoint unescape (s : string) : string :=
  match s with
  | EmptyString => ""
  | String c rest =>
      if Ascii.eqb c BSL then
        match rest with
        | String x rest' =>
            if is_line_terminator x
            then String c (String x (unescape rest'))
            else String (unescapeChar x) (unescape rest')
        | EmptyString => str c
        end
      else String c (unescape rest)
  end.

Definition hexDigit (n : N) : ascii :=
  match String.get (N.to_nat n) "0123456789abcdef" with
  | Some c => c
  | None => "0"%char
  end.

(** [codePoint.toString(16)] for a code unit (below [0x10000]). *)
Fixpoint toString16_fuel (fuel : nat) (n : N) : string :=
  match fuel with
  | O => ""
  | S fuel' =>
      if (n <? 16)%N then str (hexDigit n)
      else toString16_fuel fuel' (n / 16)%N +:+ str (hexDigit (n mod 16)%N)
  end.
Definition toString16 (n : N) : string := toString16_fuel 4 n.

Fixpoint repeat_char (c : ascii) (n : nat) : string :=
  match n with O => "" | S n' => String c (repeat_char c n') end.

(** [s.padStart(n, c)] *)
Definition padStart (n : nat) (c : ascii) (s : string) : string :=
  repeat_char c (n - String.length s) +:+ s.

(** The [switch (char)] of [escape]: what one character at position
    [index] pushes to [result]. *)
Definition escape_char (c : ascii) (index : nat) (escapeSpace escapeUnicode : bool)
  : string :=
  if Ascii.eqb c " " then
    if escapeSpace || (index =? 0)%nat then String BSL " " else " "
  else if Ascii.eqb c BSL then String BSL (str BSL)
  else if Ascii.eqb c FF then String BSL "f"
  else if Ascii.eqb c LF then String BSL "n"
  else if Ascii.eqb c CR then String BSL "r"
  else if Ascii.eqb c TAB then String BSL "t"
  else if Ascii.eqb c "=" || Ascii.eqb c ":" || Ascii.eqb c "#" || Ascii.eqb c "!"
  then String BSL (str c)
  else
    let codePoint := N_of_ascii c in
    if escapeUnicode && ((codePoint <? 32)%N || (126 <? codePoint)%N)
    then String BSL "u" +:+ padStart 4 "0" (toString16 codePoint)
    else str c.

(** The [for] loop of [escape] from position [index] on. *)
Fixpoint escape_from (index : nat) (s : string) (escapeSpace escapeUnicode : bool)
  : string :=
  match s with
  | EmptyString => ""
  | String c rest =>
      escape_char c index escapeSpace escapeUnicode +:+
      escape_from (S index) rest escapeSpace escapeUnicode
  end.

Definition escape (unescapedContent : string) (escapeSpace escapeUnicode : bool)
  : string :=
  escape_from 0 unescapedContent escapeSpace escapeUnicode.

(** [escapeKey] and [escapeValue], with [escapeUnicode] at its default. *)
Definition escapeKey (unescapedKey : string) : string :=
  escape unescapedKey true true.
Definition escapeValue (unescapedValue : string) : string :=
  escape unescapedValue false true.

(** [set]: the line array after the call.  [value] is [None] for
    [undefined] and [null]. *)
Definition set (config : Properties) (k : string) (v : option string)
  : Properties :=
  let f := findValue (lines config) k in
  let items :=
    match v with
    | Some s =>
        [escapeKey k +:+
         (if truthy (found_sep f) then found_sep f else "=") +:+
         escapeValue s]
    | None => []
    end in
  if (0 <=? found_start f)%Z && (0 <? found_len f)%Z
  then {| lines := splice (lines config) (found_start f) (found_len f) items |}
  else {| lines := lines config ++ items |}.

(** [remove = set(config, key, undefined)] *)
Definition remove (config : Properties) (k : string) : Properties :=
  set config k None.

(** ** Specification-side definitions *)

Definition nl : string := str LF.

(** Printable ASCII: code points [0x20] to [0x7e]. *)
Definition printable_char (c : ascii) : bool :=
  (32 <=? N_of_ascii c)%N && (N_of_ascii c <=? 126)%N.

Fixpoint printable (s : string) : bool :=
  match s with
  | EmptyString => true
  | String c rest => printable_char c && printable rest
  end.

(** The logical character of an escape unit [\X], in the words of the
    specification of [unescape]. *)
Definition logical_char (x : ascii) : ascii :=
  match x with
  | "r"%char => CR
  | "t"%char => TAB
  | "n"%char => LF
  | "f"%char => FF
  | _ => x
  end.

(** [unescape] as the specification words it: every two-character unit
    [\X], whatever [X] is, is replaced by the logical character of [X]. *)
Fixpoint unescape_units (s : string) : string :=
  match s with
  | EmptyString => ""
  | String c rest =>
      if Ascii.eqb c BSL then
        match rest with
        | String x rest' => String (logical_char x) (unescape_units rest')
        | EmptyString => str c
        end
      else String c (unescape_units rest)
  end.

(** Whether some escape unit [\X] of [s] has a line terminator for [X]. *)
Fixpoint escapes_terminator (s : string) : bool :=
  match s with
  | EmptyString => false
  | String c rest =>
      if Ascii.eqb c BSL then
        match rest with
        | String x rest' => is_line_terminator x || escapes_terminator rest'
        | EmptyString => false
        end
      else escapes_terminator rest
  end.

(** Line-terminator normalization of a text: every CR LF, lone CR and LF
    becomes one LF. *)
Fixpoint normalize_terminators (s : string) : string :=
  match s with
  | EmptyString => ""
  | String c rest =>
      if Ascii.eqb c CR then
        match rest with
        | String d rest' =>
            if Ascii.eqb d LF then String LF (normalize_terminators rest')
            else String LF (normalize_terminators rest)
        | EmptyString => str LF
        end
      else String c (normalize_terminators rest)
  end.

(** A text without its leading line feeds (its leading empty lines). *)
Fixpoint strip_leading_LF (s : string) : string :=
  match s with
  | EmptyString => ""
  | String c rest => if Ascii.eqb c LF then strip_leading_LF rest else s
  end.

(** A text without its trailing line feeds. *)
Fixpoint strip_trailing_LF (s : string) : string :=
  match s with
  | EmptyString => ""
  | String c rest =>
      match strip_trailing_LF rest with
      | EmptyString => if Ascii.eqb c LF then "" else str c
      | r => String c r
      end
  end.

Fixpoint last_char (s : string) : option ascii :=
  match s with
  | EmptyString => None
  | String c EmptyString => Some c
  | String _ rest => last_char rest
  end.

Fixpoint drop_last (s : string) : string :=
  match s with
  | EmptyString => ""
  | String _ EmptyString => ""
  | String c rest => String c (drop_last rest)
  end.

Definition ends_with_LF (s : string) : bool :=
  match last_char s with
  | Some c => Ascii.eqb c LF
  | None => false
  end.

(** What [parse] then [stringify] do to the end of a text: a text ending
    in two line feeds loses one, a text ending in exactly one keeps it, any
    other non-empty text gains one. *)
Definition adjust_trailing (s : string) : string :=
  if String.eqb s "" then ""
  else if ends_with_LF s && ends_with_LF (drop_last s) then drop_last s
  else if ends_with_LF s then s
  else s +:+ str LF.

(** The first entry with a given key. *)
Definition first_match (es : list Entry) (k : string) : option Entry :=
  List.find (fun e => String.eqb k (pair_key e)) es.

(** The separator most recently observed in a sequence of entries, if any
    entry had one. *)
Definition last_observed_separator (es : list Entry) : option string :=
  last (filter (fun s => s <> "") (map pair_sep es)).

(** The line [set] renders for a key, a separator and a value. *)
Definition rendered_line (k sp v : string) : string :=
  escapeKey k +:+ sp +:+ escapeValue v.

(** Counting the characters of a separator that are not spaces, and
    checking that they are all [=] or [:]. *)
Fixpoint non_space_count (s : string) : nat :=
  match s with
  | EmptyString => 0
  | String c rest => (if Ascii.eqb c " " then 0 else 1) + non_space_count rest
  end.

Fixpoint only_separator_chars (s : string) : bool :=
  match s with
  | EmptyString => true
  | String c rest =>
      (Ascii.eqb c " " || Ascii.eqb c "=" || Ascii.eqb c ":")
      && only_separator_chars rest
  end.

(** Whether a backslash is pending at the end of a line, where a backslash
    escapes the character after it: the line ends in a backslash that is
    not itself escaped. *)
Fixpoint escape_pending (pending : bool) (l : string) : bool :=
  match l with
  | EmptyString => pending
  | String c rest =>
      escape_pending (if Ascii.eqb c BSL then negb pending else false) rest
  end.

Definition ends_unescaped_backslash (l : string) : bool :=
  escape_pending false l.

(** The state the tokenizer is left in by a whole line array, and whether
    it stopped between entries. *)
Definition final_state (ls : list string) : TokState :=
  fst (run newState (chars ls)).

Definition scan_ends_idle (ls : list string) : bool :=
  State_eqb (state (final_state ls)) START.

(** ** Predicates and tactics of the proofs *)

(** The characters of a line, without the EOL. *)
Definition text_chars (i : Z) (l : string) : list (Char * Z) :=
  map (fun c => (Ch c, i)) (list_ascii_of_string l).

(** Case analysis on a character, along the [case] labels of the
    tokenizer. *)
Ltac char_cases c :=
  let H := fresh "Hc" in
  destruct (Ascii.eqb c " ") eqn:H;
  [ apply Ascii.eqb_eq in H; subst c
  | let H := fresh "Hc" in
    destruct (Ascii.eqb c "=") eqn:H;
    [ apply Ascii.eqb_eq in H; subst c
    | let H := fresh "Hc" in
      destruct (Ascii.eqb c ":") eqn:H;
      [ apply Ascii.eqb_eq in H; subst c
      | let H := fresh "Hc" in
        destruct (Ascii.eqb c "#") eqn:H;
        [ apply Ascii.eqb_eq in H; subst c
        | let H := fresh "Hc" in
          destruct (Ascii.eqb c "!") eqn:H;
          [ apply Ascii.eqb_eq in H; subst c
          | let H := fresh "Hc" in
            destruct (Ascii.eqb c BSL) eqn:H;
            [ apply Ascii.eqb_eq in H; subst c | ] ] ] ] ] ].

(** Unfold one loop iteration without touching the character tests. *)
Ltac unfold_step :=
  cbv beta iota zeta delta
    [step on_START on_KEY on_SEPARATOR on_VALUE is_space is_EOL
     set_state set_start set_key set_sep set_value set_skipSpace
     set_escapedNext yield_entry newState State_eqb
     state start key sep value skipSpace escapedNext
     andb orb negb fst snd app].

(** Then decide the tests: those [char_cases] left as facts are rewritten,
    those on a known character are computed. *)
Ltac step_simpl :=
  unfold_step;
  repeat match goal with
         | H : Ascii.eqb _ _ = false |- _ => rewrite !H
         end;
  cbv beta iota zeta delta
    [step on_START on_KEY on_SEPARATOR on_VALUE is_space is_EOL
     set_state set_start set_key set_sep set_value set_skipSpace
     set_escapedNext yield_entry newState State_eqb
     state start key sep value skipSpace escapedNext
     andb orb negb fst snd app Ascii.eqb Bool.eqb].

Definition separator_ok (s : string) : Prop :=
  only_separator_chars s = true /\ (non_space_count s <= 1)%nat.

(** A pending escape only exists inside a key or a value, after the
    leading spaces. *)
Definition escape_inv (st : TokState) : Prop :=
  escapedNext st = true ->
  (state st = KEY \/ state st = VALUE) /\ skipSpace st = false.

(** Outside comments, [escapedNext] follows the backslashes of the line. *)
Definition pending_rel (st : TokState) (p : bool) : Prop :=
  state st = COMMENT \/ (escapedNext st = p /\ escape_inv st).

(** What holds of the state at the start of every line. *)
Definition line_start_inv (st : TokState) : Prop :=
  escapedNext st = false /\ state st <> COMMENT /\ state st <> SEPARATOR.

Ltac solve_pending :=
  unfold pending_rel, escape_inv in *; simpl in *;
  intuition (try discriminate; try congruence).

(** The tokenizer between two entries: in START with empty buffers. *)
Definition idle (st : TokState) : Prop :=
  state st = START /\ key st = "" /\ sep st = "" /\ value st = ""
  /\ escapedNext st = false.

(** The state at the start of line [i]: between two entries, or inside a
    key or value continued from an earlier line. *)
Definition line_ok (st : TokState) (i : Z) : Prop :=
  idle st \/ ((state st = KEY \/ state st = VALUE) /\ (start st < i)%Z).

(** The line an entry in progress started on, or [i] when none is. *)
Definition origin (st : TokState) (i : Z) : Z :=
  match state st with START => i | _ => start st end.

(** How the characters of line [line] move [st] to [st']: an entry in
    progress keeps its first line, and one that begins records [line]. *)
Definition track (line : Z) (st st' : TokState) : Prop :=
  (state st <> START ->
   state st' <> START /\ start st' = start st
   /\ (state st' = COMMENT -> state st = COMMENT))
  /\ (state st = START ->
      st' = st \/ (state st' <> START /\ start st' = line)).

Ltac all_chars c := destruct c as [[] [] [] [] [] [] [] []].

(** The separator [set] renders with when it replaces an entry. *)
Definition separator_or_default (s : string) : string :=
  if truthy s then s else "=".

Fixpoint no_LF (s : string) : bool :=
  match s with
  | EmptyString => true
  | String c rest => negb (Ascii.eqb c LF) && no_LF rest
  end.

(** All the leading empty lines dropped. *)
Fixpoint drop_empty (ls : list string) : list string :=
  match ls with
  | [] => []
  | l :: rest => if (String.length l =? 0)%nat then drop_empty rest else ls
  end.

(** What the loop of [stringify] keeps: the leading empty lines dropped,
    but never the last line. *)
Fixpoint drop_leading_empty (ls : list string) : list string :=
  match ls with
  | l :: (_ :: _) as rest =>
      if (String.length l =? 0)%nat then drop_leading_empty rest else ls
  | _ => ls
  end.

(** The last step of [stringify]: an empty line after a last line that is
    not empty. *)
Definition add_trailing (ls : list string) : list string :=
  if (0 <? length ls)%nat && negb (line_empty ls (length ls - 1))
  then ls ++ [""] else ls.

(** The last entry with a given key. *)
Definition last_match (es : list Entry) (k : string) : option Entry :=
  first_match (rev es) k.

(** A line that is empty, or whose first character opens a comment. *)
Definition comment_or_blank (l : string) : bool :=
  match l with
  | EmptyString => true
  | String c _ => Ascii.eqb c "#" || Ascii.eqb c "!"
  end.

(** A line without a line terminator in it. *)
Fixpoint no_terminator (s : string) : bool :=
  match s with
  | EmptyString => true
  | String c rest => negb (is_line_terminator c) && no_terminator rest
  end.



(** An entry moved by [d] lines, and a character stream renumbered by
    [d] lines. *)
Definition shift_entry (d : Z) (e : Entry) : Entry :=
  {| pair_start := pair_start e + d; pair_len := pair_len e;
     pair_sep := pair_sep e; pair_key := pair_key e;
     pair_value := pair_value e |}.

Definition shift_char (d : Z) (cl : Char * Z) : Char * Z :=
  (fst cl, snd cl + d)%Z.

(** Two tokenizer states that differ only in the first line of the entry
    in progress, by [d] lines. *)
Definition sim (d : Z) (st st' : TokState) : Prop :=
  state st' = state st /\ key st' = key st /\ sep st' = sep st
  /\ value st' = value st /\ skipSpace st' = skipSpace st
  /\ escapedNext st' = escapedNext st
  /\ (state st <> START -> start st' = (start st + d)%Z).

(** [set] on a list of key and value pairs: the first pair with the key
    gets the value, and a pair is added at the end when there is none. *)
Fixpoint replace_first (k v : string) (kvs : list KeyValuePair)
  : list KeyValuePair :=
  match kvs with
  | [] => [ {| kv_key := k; kv_value := v |} ]
  | p :: rest =>
      if String.eqb k (kv_key p)
      then {| kv_key := k; kv_value := v |} :: rest
      else p :: replace_first k v rest
  end.

Definition to_kv (e : Entry) : KeyValuePair :=
  {| kv_key := pair_key e; kv_value := pair_value e |}.

Ltac solve_sim :=
  unfold sim; cbn [state start key sep value skipSpace escapedNext];
  repeat split; try reflexivity; try (intros _; lia);
  try (intros Hne; exfalso; apply Hne; reflexivity).

(** ** Sanity checks on concrete inputs *)

Example parse_three :
  parse ("a=1" +:+ nl +:+ "b = 2" +:+ nl +:+ "c: 3")
  = {| lines := ["a=1"; "b = 2"; "c: 3"] |}.
Proof. reflexivity. Qed.

Example parse_mixed_terminators :
  parse ("a" +:+ str CR +:+ nl +:+ "b" +:+ str CR +:+ "c" +:+ nl)
  = {| lines := ["a"; "b"; "c"] |}.
Proof. reflexivity. Qed.

Example listPairs_three :
  listPairs ["a=1"; "b = 2"; "c: 3"]
  = [ {| pair_start := 0; pair_len := 1; pair_sep := "="; pair_key := "a"; pair_value := "1" |};
      {| pair_start := 1; pair_len := 1; pair_sep := " = "; pair_key := "b"; pair_value := "2" |};
      {| pair_start := 2; pair_len := 1; pair_sep := ": "; pair_key := "c"; pair_value := "3" |} ].
Proof. reflexivity. Qed.

Example escape_leading_space :
  escapeValue " x" = String BSL " x" /\ escapeValue "a b" = "a b"
  /\ escapeKey "a b" = "a" +:+ String BSL " b".
Proof. repeat split; reflexivity. Qed.

Example escape_unicode : escapeValue (str TAB +:+ str "127"%char +:+ str "001"%char)
  = String BSL "t" +:+ String BSL "u007f" +:+ String BSL "u0001".
Proof. reflexivity. Qed.

(** ** Escape codec: proofs *)

Lemma unescapeChar_logical (x : ascii) : unescapeChar x = logical_char x.
Proof.
  destruct x as [[] [] [] [] [] [] [] []]; reflexivity.
Qed.



(** One character of printable text survives [escape] then [unescape],
    whatever follows it and wherever it stands. *)
Lemma unescape_escape_char (c : ascii) (index : nat) (rest : string) :
  printable_char c = true ->
  unescape (escape_char c index false true +:+ rest) = String c (unescape rest).
Proof.
  destruct c as [[] [] [] [] [] [] [] []]; intros Hp;
    try discriminate Hp; destruct index; reflexivity.
Qed.

Lemma unescape_escape_from (s : string) :
  forall index, printable s = true ->
  unescape (escape_from index s false true) = s.
Proof.
  induction s as [| c s IH]; intros index Hp; [reflexivity |].
  simpl in Hp. apply andb_prop in Hp as [Hc Hs].
  simpl escape_from. rewrite unescape_escape_char by exact Hc.
  f_equal. apply IH, Hs.
Qed.

(** C3. Escape/unescape inverse: for every string of printable ASCII
    characters, [unescape (escapeValue text)] is [text]. *)
Theorem unescape_escapeValue (text : string) :
  printable text = true -> unescape (escapeValue text) = text.
Proof.
  intros Hp. unfold escapeValue, escape. apply unescape_escape_from, Hp.
Qed.

Lemma unescape_escapeValue_witness :
  unescape (escapeValue " a=b:c#d!e\f g") = " a=b:c#d!e\f g".
Proof. apply unescape_escapeValue. reflexivity. Defined.

(** C8, as the specification states it, fails: a backslash in front of a
    line feed is an escape unit whose logical character is the line feed,
    but [unescape] leaves both characters in place. *)
Lemma unescape_units_counterexample :
  unescape (String BSL (str LF)) = String BSL (str LF)
  /\ unescape_units (String BSL (str LF)) = str LF
  /\ unescape (String BSL (str LF)) <> unescape_units (String BSL (str LF)).
Proof. split; [reflexivity | split; [reflexivity | discriminate]]. Qed.

(** C8, amended. On every string none of whose escape units [\X] has a
    line terminator for [X], [unescape] replaces each unit by the logical
    character of [X] ([r], [t], [n], [f] give CR, TAB, LF, FF; any other
    [X], the backslash included, gives [X]); a [\uXXXX] is not decoded:
    a backslash followed by [u0041] gives [u0041]. *)
Theorem unescape_units_correct (s : string) :
  escapes_terminator s = false ->
  unescape s = unescape_units s
  /\ unescape (String BSL "u0041") = "u0041".
Proof.
  intros Hs. split; [| reflexivity].
  assert (Hgen : forall n s', (String.length s' <= n)%nat ->
            escapes_terminator s' = false -> unescape s' = unescape_units s').
  { clear s Hs. induction n as [| n IH]; intros [| c rest] Hlen; try reflexivity.
    - simpl in Hlen. lia.
    - simpl in Hlen. simpl. destruct (Ascii.eqb c BSL).
      + destruct rest as [| x rest']; [reflexivity |].
        intros Hs. apply orb_false_elim in Hs as [Hx Hr]. rewrite Hx.
        rewrite unescapeChar_logical. f_equal.
        apply IH; [simpl in Hlen; lia | exact Hr].
      + intros Hs. f_equal. apply IH; [lia | exact Hs]. }
  apply (Hgen (String.length s)); [lia | exact Hs].
Qed.

Lemma unescape_units_correct_witness :
  unescape (String BSL "u0041") = unescape_units (String BSL "u0041")
  /\ unescape (String BSL "u0041") = "u0041".
Proof. apply unescape_units_correct. reflexivity. Defined.

(** ** Concrete documents *)

(** C1, evaluated at its failing input: on the lines [k=1], [k=2] the
    lookup [get] returns the value of the first entry for [k], while
    [toObject] and [toMap] hold the value of the last one. *)
Theorem get_returns_first_duplicate :
  get {| lines := ["k=1"; "k=2"] |} "k" = Some "1"
  /\ toObject {| lines := ["k=1"; "k=2"] |} !! "k" = Some "2"
  /\ toMap {| lines := ["k=1"; "k=2"] |} !! "k" = Some "2".
Proof. split; [| split]; vm_compute; reflexivity. Qed.

(** C4. Line continuation: the lines [key=val\] and [ue] hold exactly one
    entry, with key [key] and value [value], starting at line 0 and
    spanning 2 lines; removing [key] is one splice of that range and
    leaves no line. *)
Theorem continuation_entry_and_remove :
  listPairs [String.append "key=val" (str BSL); "ue"]
  = [ {| pair_start := 0; pair_len := 2; pair_sep := "=";
         pair_key := "key"; pair_value := "value" |} ]
  /\ list_ {| lines := [String.append "key=val" (str BSL); "ue"] |}
     = [ {| kv_key := "key"; kv_value := "value" |} ]
  /\ lines (remove {| lines := [String.append "key=val" (str BSL); "ue"] |} "key")
     = splice [String.append "key=val" (str BSL); "ue"] 0 2 []
  /\ lines (remove {| lines := [String.append "key=val" (str BSL); "ue"] |} "key")
     = [].
Proof. repeat split; vm_compute; reflexivity. Qed.

(** ** Strings and character streams *)

Lemma append_assoc (a b c : string) : (a +:+ b) +:+ c = a +:+ (b +:+ c).
Proof. induction a as [| x a IH]; simpl; [reflexivity | now rewrite IH]. Qed.

Lemma append_nil_r (a : string) : a +:+ "" = a.
Proof. induction a as [| x a IH]; simpl; [reflexivity | now rewrite IH]. Qed.

Lemma list_ascii_of_string_app (a b : string) :
  list_ascii_of_string (a +:+ b)
  = list_ascii_of_string a ++ list_ascii_of_string b.
Proof. induction a as [| x a IH]; simpl; [reflexivity | now rewrite IH]. Qed.

Lemma line_chars_text (i : Z) (l : string) :
  line_chars i l = text_chars i l ++ [(EOL, i)].
Proof. reflexivity. Qed.

Lemma text_chars_app (i : Z) (a b : string) :
  text_chars i (a +:+ b) = text_chars i a ++ text_chars i b.
Proof. unfold text_chars. now rewrite list_ascii_of_string_app, map_app. Qed.

Lemma chars_from_app (a b : list string) :
  forall i, chars_from i (a ++ b)
            = chars_from i a ++ chars_from (i + Z.of_nat (length a)) b.
Proof.
  induction a as [| l a IH]; intros i; simpl.
  - now rewrite Z.add_0_r.
  - rewrite IH, <- app_assoc. do 3 f_equal. lia.
Qed.

Lemma run_app (cs1 cs2 : list (Char * Z)) :
  forall st,
    run st (cs1 ++ cs2)
    = (fst (run (fst (run st cs1)) cs2),
       snd (run st cs1) ++ snd (run (fst (run st cs1)) cs2)).
Proof.
  induction cs1 as [| [ch line] cs1 IH]; intros st; simpl.
  - now destruct (run st cs2).
  - destruct (step st ch line) as [st1 ys1]. rewrite IH.
    destruct (run st1 cs1) as [st2 ys2]; simpl.
    destruct (run st2 cs2) as [st3 ys3]; simpl.
    now rewrite app_assoc.
Qed.

Lemma run_cons (st : TokState) (ch : Char) (line : Z) (cs : list (Char * Z)) :
  run st ((ch, line) :: cs)
  = (fst (run (fst (step st ch line)) cs),
     snd (step st ch line) ++ snd (run (fst (step st ch line)) cs)).
Proof.
  simpl. destruct (step st ch line) as [st1 ys1]; simpl.
  now destruct (run st1 cs).
Qed.

(** A character of a line never yields: entries come out at EOL only. *)
Lemma step_char_no_yield (st : TokState) (c : ascii) (line : Z) :
  snd (step st (Ch c) line) = [].
Proof.
  destruct st as [s st0 k sp v sk en].
  destruct s, sk, en; char_cases c; step_simpl;
    try reflexivity; destruct (has_separator_char sp); reflexivity.
Qed.

(** What an EOL does, state by state. *)
Lemma step_EOL (st : TokState) (line : Z) :
  step st EOL line =
  match state st with
  | START => (set_skipSpace false st, [])
  | COMMENT => (newState, [])
  | SEPARATOR => (newState, [yield_entry st line])
  | KEY | VALUE =>
      if escapedNext st
      then (set_skipSpace true (set_escapedNext false st), [])
      else (newState, [yield_entry st line])
  end.
Proof.
  destruct st as [s st0 k sp v sk en].
  destruct s, sk, en; reflexivity.
Qed.

(** ** Invariants of the tokenizer loop *)

(** A property of the state kept by every iteration, together with a
    property of everything yielded, holds along the whole loop. *)
Lemma run_invariant (I : TokState -> Prop) (P : Entry -> Prop) :
  (forall st ch line,
      I st -> I (fst (step st ch line)) /\ Forall P (snd (step st ch line))) ->
  forall cs st, I st -> I (fst (run st cs)) /\ Forall P (snd (run st cs)).
Proof.
  intros Hstep. induction cs as [| [ch line] cs IH]; intros st Hst.
  - simpl. split; [exact Hst | constructor].
  - rewrite run_cons; simpl.
    destruct (Hstep st ch line Hst) as [H1 H2].
    destruct (IH _ H1) as [H3 H4].
    split; [exact H3 | apply Forall_app; split; assumption].
Qed.

(** *** The separator buffer *)

Lemma non_space_count_app (a b : string) :
  non_space_count (a +:+ b) = (non_space_count a + non_space_count b)%nat.
Proof. induction a as [| x a IH]; simpl; [reflexivity | rewrite IH; lia]. Qed.

Lemma only_separator_chars_app (a b : string) :
  only_separator_chars (a +:+ b)
  = only_separator_chars a && only_separator_chars b.
Proof.
  induction a as [| x a IH]; simpl; [reflexivity |].
  now rewrite IH, andb_assoc.
Qed.

Lemma no_separator_char_count (s : string) :
  only_separator_chars s = true -> has_separator_char s = false ->
  non_space_count s = 0%nat.
Proof.
  induction s as [| x s IH]; simpl; [reflexivity |].
  intros Ho Hh. apply andb_prop in Ho as [Hx Hs].
  apply orb_false_elim in Hh as [Hh Hr].
  apply orb_false_elim in Hh as [He Hc].
  rewrite He, Hc, !orb_false_r in Hx. rewrite Hx. simpl. now apply IH.
Qed.

Lemma separator_ok_step (st : TokState) (ch : Char) (line : Z) :
  separator_ok (sep st) ->
  separator_ok (sep (fst (step st ch line)))
  /\ Forall (fun e => separator_ok (pair_sep e)) (snd (step st ch line)).
Proof.
  intros Hok. assert (Hnil : separator_ok "") by (split; simpl; [reflexivity | lia]).
  destruct ch as [c |].
  - rewrite step_char_no_yield. split; [| constructor].
    destruct st as [s st0 k sp v sk en]; simpl in Hok.
    destruct Hok as [Ho Hn].
    destruct s, sk, en; char_cases c; step_simpl; try (split; assumption);
      try (split; [rewrite only_separator_chars_app, Ho; reflexivity
                  | rewrite non_space_count_app; simpl; lia]);
      destruct (has_separator_char sp) eqn:Hh; simpl; try (split; assumption);
      (split; [rewrite only_separator_chars_app, Ho; reflexivity
              | rewrite non_space_count_app,
                  (no_separator_char_count sp Ho Hh); simpl; lia]).
  - rewrite step_EOL.
    destruct (state st), (escapedNext st); simpl;
      (split;
       [ first [exact Hok | exact Hnil]
       | first [constructor; [exact Hok | constructor] | constructor] ]).
Qed.

Lemma listPairs_separator_ok (ls : list string) :
  Forall (fun e => separator_ok (pair_sep e)) (listPairs ls).
Proof.
  unfold listPairs.
  apply (run_invariant (fun st => separator_ok (sep st))
                       (fun e => separator_ok (pair_sep e))).
  - intros st ch line. apply separator_ok_step.
  - split; simpl; [reflexivity | lia].
Qed.

(** C7. The second-separator rule.  In the SEPARATOR state a [=] or [:]
    starts the value, as its first character, when the separator buffer
    already holds a [=] or [:], and is appended to the buffer otherwise;
    so [a==b] has key [a], separator [=] and value [=b], and the separator
    of every entry holds spaces and at most one other character, a [=] or
    a [:]. *)
Theorem second_separator_rule :
  (forall st c line,
      state st = SEPARATOR -> c = "="%char \/ c = ":"%char ->
      has_separator_char (sep st) = true ->
      state (fst (step st (Ch c) line)) = VALUE
      /\ value (fst (step st (Ch c) line)) = value st +:+ str c
      /\ sep (fst (step st (Ch c) line)) = sep st
      /\ key (fst (step st (Ch c) line)) = key st
      /\ snd (step st (Ch c) line) = [])
  /\ (forall st c line,
      state st = SEPARATOR -> c = "="%char \/ c = ":"%char ->
      has_separator_char (sep st) = false ->
      state (fst (step st (Ch c) line)) = SEPARATOR
      /\ sep (fst (step st (Ch c) line)) = sep st +:+ str c
      /\ value (fst (step st (Ch c) line)) = value st
      /\ key (fst (step st (Ch c) line)) = key st
      /\ snd (step st (Ch c) line) = [])
  /\ listPairs ["a==b"]
     = [ {| pair_start := 0; pair_len := 1; pair_sep := "=";
            pair_key := "a"; pair_value := "=b" |} ]
  /\ (forall ls e,
      In e (listPairs ls) ->
      (non_space_count (pair_sep e) <= 1)%nat
      /\ only_separator_chars (pair_sep e) = true).
Proof.
  split; [| split; [| split]].
  - intros [s st0 k sp v sk en] c line Hs Hc Hh; simpl in *; subst s.
    destruct Hc as [-> | ->]; destruct sk, en;
      unfold_step; rewrite Hh; repeat split; reflexivity.
  - intros [s st0 k sp v sk en] c line Hs Hc Hh; simpl in *; subst s.
    destruct Hc as [-> | ->]; destruct sk, en;
      unfold_step; rewrite Hh; repeat split; reflexivity.
  - vm_compute; reflexivity.
  - intros ls e Hin.
    pose proof (listPairs_separator_ok ls) as Hall.
    rewrite List.Forall_forall in Hall.
    destruct (Hall e Hin) as [Ho Hn]. split; assumption.
Qed.

Lemma second_separator_rule_witness :
  (non_space_count "=" <= 1)%nat /\ only_separator_chars "=" = true.
Proof.
  apply (proj2 (proj2 (proj2 second_separator_rule)) ["a==b"]
           {| pair_start := 0; pair_len := 1; pair_sep := "=";
              pair_key := "a"; pair_value := "=b" |}).
  vm_compute. left. reflexivity.
Defined.

(** ** The index helper [findValue] *)

Lemma truthy_spec (s : string) : truthy s = true <-> s <> "".
Proof.
  unfold truthy. destruct (String.eqb_spec s ""); simpl; split; congruence.
Qed.

(** When no entry has the key, [findValue] reports the last separator it
    saw, or the one it started from. *)
Lemma findValue_loop_not_found (es : list Entry) (k : string) :
  forall sep0,
    first_match es k = None ->
    findValue_loop sep0 es k
    = {| found_start := -1; found_len := 0;
         found_sep := default sep0 (last_observed_separator es);
         found_value := None |}.
Proof.
  unfold first_match, last_observed_separator.
  induction es as [| e es IH]; intros sep0 Hnone; simpl in *; [reflexivity |].
  destruct (String.eqb k (pair_key e)); [discriminate |].
  rewrite (IH _ Hnone). f_equal.
  rewrite filter_cons. unfold truthy.
  destruct (String.eqb_spec (pair_sep e) "") as [He | He];
    destruct (decide (pair_sep e <> "")) as [Hd | Hd]; try contradiction; simpl.
  - reflexivity.
  - rewrite last_cons. now destruct (last _).
Qed.

(** When some entry has the key, [findValue] returns the first such entry. *)
Lemma findValue_loop_found (es : list Entry) (k : string) (e : Entry) :
  forall sep0,
    first_match es k = Some e ->
    findValue_loop sep0 es k
    = {| found_start := pair_start e; found_len := pair_len e;
         found_sep := pair_sep e; found_value := Some (pair_value e) |}.
Proof.
  unfold first_match.
  induction es as [| e0 es IH]; intros sep0 Hfound; simpl in *; [discriminate |].
  destruct (String.eqb k (pair_key e0)).
  - now inversion Hfound.
  - now apply IH.
Qed.

Lemma get_first_match (config : Properties) (k : string) :
  get config k = pair_value <$> first_match (listPairs (lines config)) k.
Proof.
  unfold get, findValue.
  destruct (first_match (listPairs (lines config)) k) as [e |] eqn:Hf.
  - now rewrite (findValue_loop_found _ _ _ _ Hf).
  - now rewrite (findValue_loop_not_found _ _ _ Hf).
Qed.

Lemma last_observed_separator_nonempty (es : list Entry) (s : string) :
  last_observed_separator es = Some s -> s <> "".
Proof.
  unfold last_observed_separator. intros Hl.
  apply last_Some in Hl as [l' Hl'].
  assert (Hin : s ∈ filter (fun s => s <> "") (map pair_sep es))
    by (rewrite Hl'; apply elem_of_app; right; apply list_elem_of_singleton; reflexivity).
  apply list_elem_of_filter in Hin as [Hs _]. exact Hs.
Qed.

Lemma last_observed_separator_none (es : list Entry) :
  Forall (fun e => pair_sep e = "") es -> last_observed_separator es = None.
Proof.
  unfold last_observed_separator.
  induction 1 as [| e es He _ IH]; [reflexivity |].
  simpl. rewrite filter_cons_False by (intros Hne; apply Hne, He). exact IH.
Qed.

(** When the key has no entry, [set] appends one rendered line. *)
Lemma set_not_found_lines (config : Properties) (k v : string) :
  first_match (listPairs (lines config)) k = None ->
  lines (set config k (Some v))
  = lines config
    ++ [rendered_line k
          (default "=" (last_observed_separator (listPairs (lines config)))) v].
Proof.
  intros Hnone.
  unfold set, findValue. rewrite (findValue_loop_not_found _ _ _ Hnone).
  simpl. unfold rendered_line. do 3 f_equal.
  destruct (last_observed_separator (listPairs (lines config))) as [s |] eqn:Hl;
    simpl; [| reflexivity].
  apply last_observed_separator_nonempty in Hl.
  apply truthy_spec in Hl. now rewrite Hl.
Qed.

(** C6. Separator of an appended line: [set] of a key that no entry has
    appends one line, rendered with the separator most recently observed in
    the entries of the Document, and with [=] when no entry has a
    separator. *)
Theorem set_new_key_separator (config : Properties) (k v : string) :
  first_match (listPairs (lines config)) k = None ->
  lines (set config k (Some v))
  = lines config
    ++ [rendered_line k
          (default "=" (last_observed_separator (listPairs (lines config)))) v]
  /\ (Forall (fun e => pair_sep e = "") (listPairs (lines config)) ->
      lines (set config k (Some v))
      = lines config ++ [escapeKey k +:+ "=" +:+ escapeValue v]).
Proof.
  intros Hnone. pose proof (set_not_found_lines config k v Hnone) as Hset.
  split; [exact Hset |].
  intros Hall. rewrite Hset.
  now rewrite (last_observed_separator_none _ Hall).
Qed.

Lemma set_new_key_separator_witness :
  lines (set {| lines := ["a : 1"; "b"] |} "c" (Some "x"))
  = ["a : 1"; "b"] ++ [rendered_line "c" " : " "x"]
  /\ (Forall (fun e => pair_sep e = "") (listPairs ["a : 1"; "b"]) ->
      lines (set {| lines := ["a : 1"; "b"] |} "c" (Some "x"))
      = ["a : 1"; "b"] ++ ["c=x"]).
Proof. apply (set_new_key_separator {| lines := ["a : 1"; "b"] |} "c" "x"). reflexivity. Defined.

(** ** Pending escapes and unterminated continuations *)

Lemma pending_rel_char (st : TokState) (c : ascii) (line : Z) (p : bool) :
  pending_rel st p ->
  pending_rel (fst (step st (Ch c) line))
              (if Ascii.eqb c BSL then negb p else false).
Proof.
  intros H. destruct st as [s st0 k sp v sk en].
  destruct s, sk, en, p; try solve [exfalso; solve_pending];
    char_cases c; step_simpl; try solve [solve_pending];
    destruct (has_separator_char sp); solve_pending.
Qed.

Lemma pending_rel_EOL (st : TokState) (line : Z) (p : bool) :
  pending_rel st p ->
  line_start_inv (fst (step st EOL line))
  /\ (p = true -> snd (step st EOL line) = []).
Proof.
  intros H. rewrite step_EOL. destruct st as [s st0 k sp v sk en].
  unfold line_start_inv.
  destruct s, sk, en, p; simpl; try solve [exfalso; solve_pending];
    repeat split; try discriminate; try reflexivity; solve_pending.
Qed.

Lemma run_text_no_yield (i : Z) (l : string) :
  forall st, snd (run st (text_chars i l)) = [].
Proof.
  unfold text_chars.
  induction (list_ascii_of_string l) as [| c cs IH]; intros st; [reflexivity |].
  simpl map. rewrite run_cons; simpl. now rewrite step_char_no_yield, IH.
Qed.

Lemma pending_rel_text (i : Z) (l : string) :
  forall st p,
    pending_rel st p ->
    pending_rel (fst (run st (text_chars i l))) (escape_pending p l).
Proof.
  induction l as [| c l IH]; intros st p H; [exact H |].
  change (text_chars i (String c l)) with ((Ch c, i) :: text_chars i l).
  rewrite run_cons; simpl. apply IH, pending_rel_char, H.
Qed.

Lemma line_start_pending (st : TokState) :
  line_start_inv st -> pending_rel st false.
Proof.
  intros (He & _ & _). right. split; [exact He |].
  unfold escape_inv. rewrite He. discriminate.
Qed.

Lemma line_start_inv_line (st : TokState) (i : Z) (l : string) :
  line_start_inv st -> line_start_inv (fst (run st (line_chars i l))).
Proof.
  intros H. rewrite line_chars_text, run_app, run_cons. cbn [fst snd run].
  eapply pending_rel_EOL, pending_rel_text, line_start_pending, H.
Qed.

Lemma line_start_inv_lines (ls : list string) :
  forall st i,
    line_start_inv st -> line_start_inv (fst (run st (chars_from i ls))).
Proof.
  induction ls as [| l ls IH]; intros st i H; [exact H |].
  simpl chars_from. rewrite run_app. cbn [fst snd].
  apply IH, line_start_inv_line, H.
Qed.

Lemma line_start_inv_newState : line_start_inv newState.
Proof. repeat split; discriminate. Qed.

(** A last line that ends in an unescaped backslash yields nothing. *)
Lemma unterminated_last_line (ls : list string) (l : string) :
  ends_unescaped_backslash l = true ->
  listPairs (ls ++ [l]) = listPairs ls.
Proof.
  intros Hl. unfold listPairs, chars.
  rewrite chars_from_app, run_app. cbn [fst snd chars_from].
  rewrite app_nil_r, line_chars_text, run_app, run_cons. cbn [fst snd run].
  rewrite run_text_no_yield. cbn [app].
  set (st0 := fst (run newState (chars_from 0 ls))).
  assert (H0 : line_start_inv st0)
    by (apply line_start_inv_lines, line_start_inv_newState).
  pose proof (pending_rel_text (0 + Z.of_nat (length ls)) l _ _
                (line_start_pending _ H0)) as Hrel.
  fold (ends_unescaped_backslash l) in Hrel. rewrite Hl in Hrel.
  destruct (pending_rel_EOL _ (0 + Z.of_nat (length ls)) _ Hrel) as [_ Hno].
  rewrite (Hno eq_refl). now rewrite app_nil_r.
Qed.

(** C9. Permissive error handling: [parse] returns a Document for every
    text and the entry iteration returns for every Document; when the last
    line ends in an unescaped backslash, the entry it leaves unfinished is
    dropped, the entries being those of the lines before it, and the lines
    [a=b\] alone have no entry. *)
Theorem unterminated_continuation_dropped :
  (forall text, exists config, parse text = config)
  /\ (forall config, exists entries, list_ config = entries)
  /\ (forall ls l,
         ends_unescaped_backslash l = true ->
         listPairs (ls ++ [l]) = listPairs ls
         /\ list_ {| lines := ls ++ [l] |} = list_ {| lines := ls |})
  /\ listPairs [String.append "a=b" (str BSL)] = []
  /\ list_ {| lines := [String.append "a=b" (str BSL)] |} = [].
Proof.
  split; [| split; [| split; [| split]]].
  - intros text. eexists. reflexivity.
  - intros config. eexists. reflexivity.
  - intros ls l Hl. unfold list_; simpl.
    now rewrite (unterminated_last_line ls l Hl).
  - vm_compute; reflexivity.
  - vm_compute; reflexivity.
Qed.

Lemma unterminated_continuation_dropped_witness :
  listPairs (["x=1"] ++ [String.append "key = val" (String BSL (String BSL (str BSL)))])
  = listPairs ["x=1"]
  /\ list_ {| lines := ["x=1"] ++ [String.append "key = val" (String BSL (String BSL (str BSL)))] |}
     = list_ {| lines := ["x=1"] |}.
Proof.
  apply (proj1 (proj2 (proj2 unterminated_continuation_dropped))).
  reflexivity.
Defined.

(** ** Where entries come from *)

Lemma track_refl (line : Z) (st : TokState) : track line st st.
Proof. split; intros H; [repeat split; auto | left; reflexivity]. Qed.

Lemma track_trans (line : Z) (st st1 st2 : TokState) :
  track line st st1 -> track line st1 st2 -> track line st st2.
Proof.
  intros [Ha Hb] [Hc Hd]. split; intros H.
  - destruct (Ha H) as (H1 & H2 & H3). destruct (Hc H1) as (H4 & H5 & H6).
    repeat split; [exact H4 | congruence | auto].
  - destruct (Hb H) as [-> | [H1 H2]]; [auto |].
    destruct (Hc H1) as (H4 & H5 & _). right. split; [exact H4 | congruence].
Qed.

Lemma track_char (st : TokState) (c : ascii) (line : Z) :
  track line st (fst (step st (Ch c) line)).
Proof.
  destruct st as [s st0 k sp v sk en]. unfold track.
  destruct s, sk, en; char_cases c; step_simpl;
    try (destruct (has_separator_char sp); simpl);
    (split; intros H; simpl in *;
     [ try congruence; repeat split; try discriminate; try reflexivity; auto
     | try discriminate;
       first [ left; reflexivity
             | right; split; [discriminate | reflexivity] ] ]).
Qed.

Lemma track_text (i : Z) (l : string) :
  forall st, track i st (fst (run st (text_chars i l))).
Proof.
  induction l as [| c l IH]; intros st; [apply track_refl |].
  change (text_chars i (String c l)) with ((Ch c, i) :: text_chars i l).
  rewrite run_cons; simpl.
  eapply track_trans; [apply track_char | apply IH].
Qed.

Lemma run_line (st : TokState) (i : Z) (l : string) :
  run st (line_chars i l)
  = step (fst (run st (text_chars i l))) EOL i.
Proof.
  rewrite line_chars_text, run_app, run_cons. cbn [fst snd run].
  rewrite run_text_no_yield, app_nil_r. cbn [app].
  now destruct (step _ EOL i).
Qed.

Lemma idle_newState : idle newState.
Proof. repeat split. Qed.

(** One whole line: either nothing is yielded, and an entry still in
    progress began at [origin st i]; or exactly one entry is yielded, the
    one that began at [origin st i], and the tokenizer is reset. *)
Lemma run_line_cases (st : TokState) (i : Z) (l : string) :
  line_ok st i ->
  line_ok (fst (run st (line_chars i l))) (i + 1)
  /\ ((snd (run st (line_chars i l)) = []
       /\ (state (fst (run st (line_chars i l))) <> START ->
           start (fst (run st (line_chars i l))) = origin st i))
      \/ (fst (run st (line_chars i l)) = newState
          /\ exists e, snd (run st (line_chars i l)) = [e]
                       /\ pair_start e = origin st i
                       /\ pair_len e = (i - origin st i + 1)%Z)).
Proof.
  intros Hok. rewrite run_line.
  pose proof (track_text i l st) as [Hin Hst].
  set (st' := fst (run st (text_chars i l))) in *.
  rewrite step_EOL. unfold line_ok, origin in *.
  assert (Hnew : idle newState) by apply idle_newState.
  destruct Hok as [Hidle | [Hkv Hlt]].
  - (* the line starts between two entries *)
    pose proof Hidle as (Hs & _).
    destruct (Hst Hs) as [Heq | [Hne Hstart]].
    + rewrite Heq, Hs. simpl. split; [left | left; split; [reflexivity | congruence]].
      destruct Hidle as (H1 & H2 & H3 & H4 & H5). now repeat split.
    + rewrite Hs. destruct (state st') eqn:Es; try contradiction; simpl.
      * split; [left; exact Hnew | left; split; [reflexivity | congruence]].
      * destruct (escapedNext st'); simpl.
        -- split; [right; split; [left; exact Es | lia]
                  | left; split; [reflexivity | intros _; exact Hstart]].
        -- split; [left; exact Hnew | right; split; [reflexivity |]].
           eexists; repeat split; simpl; [exact Hstart | lia].
      * split; [left; exact Hnew | right; split; [reflexivity |]].
        eexists; repeat split; simpl; [exact Hstart | lia].
      * destruct (escapedNext st'); simpl.
        -- split; [right; split; [right; exact Es | lia]
                  | left; split; [reflexivity | intros _; exact Hstart]].
        -- split; [left; exact Hnew | right; split; [reflexivity |]].
           eexists; repeat split; simpl; [exact Hstart | lia].
  - (* the line continues a key or a value *)
    assert (Hs : state st <> START) by (destruct Hkv as [-> | ->]; discriminate).
    assert (Hnc : state st <> COMMENT) by (destruct Hkv as [-> | ->]; discriminate).
    destruct (Hin Hs) as (Hne & Hstart & Hcom).
    assert (Ho : match state st with START => i | _ => start st end = start st)
      by (destruct (state st); [contradiction | reflexivity..]).
    rewrite Ho.
    destruct (state st') eqn:Es; try contradiction; simpl.
    + exfalso. auto.
    + destruct (escapedNext st'); simpl.
      * split; [right; split; [left; exact Es | lia]
               | left; split; [reflexivity | intros _; exact Hstart]].
      * split; [left; exact Hnew | right; split; [reflexivity |]].
        eexists; repeat split; simpl; [exact Hstart | lia].
    + split; [left; exact Hnew | right; split; [reflexivity |]].
      eexists; repeat split; simpl; [exact Hstart | lia].
    + destruct (escapedNext st'); simpl.
      * split; [right; split; [right; exact Es | lia]
               | left; split; [reflexivity | intros _; exact Hstart]].
      * split; [left; exact Hnew | right; split; [reflexivity |]].
        eexists; repeat split; simpl; [exact Hstart | lia].
Qed.

Lemma line_ok_lines (ls : list string) :
  forall st i,
    line_ok st i ->
    line_ok (fst (run st (chars_from i ls))) (i + Z.of_nat (length ls)).
Proof.
  induction ls as [| l ls IH]; intros st i Hok.
  - simpl. destruct Hok as [H | [H1 H2]]; [left; exact H | right; split; [exact H1 | lia]].
  - simpl chars_from. rewrite run_app. cbn [fst snd].
    destruct (run_line_cases st i l Hok) as [Hok1 _].
    specialize (IH _ _ Hok1).
    replace (i + Z.of_nat (length (l :: ls)))%Z
      with (i + 1 + Z.of_nat (length ls))%Z by (simpl length; lia).
    exact IH.
Qed.

(** Every entry of a scan lies on lines of the scanned array, and the scan
    of the lines before the entry's first line yields exactly the entries
    before it and stops between two entries. *)
Lemma entries_located (ls : list string) :
  forall st i pre e post,
    line_ok st i ->
    snd (run st (chars_from i ls)) = pre ++ e :: post ->
    (0 < pair_len e)%Z
    /\ (pair_start e + pair_len e <= i + Z.of_nat (length ls))%Z
    /\ ((state st <> START /\ pre = [] /\ pair_start e = start st)
        \/ ((i <= pair_start e)%Z
            /\ idle (fst (run st (chars_from i
                       (take (Z.to_nat (pair_start e - i)) ls))))
            /\ snd (run st (chars_from i
                       (take (Z.to_nat (pair_start e - i)) ls))) = pre)).
Proof.
  induction ls as [| l ls IH]; intros st i pre e post Hok Hys.
  - simpl in Hys. destruct pre; discriminate.
  - simpl chars_from in Hys. rewrite run_app in Hys. cbn [fst snd] in Hys.
    destruct (run_line_cases st i l Hok) as [Hok1 Hcase].
    set (st1 := fst (run st (line_chars i l))) in *.
    assert (Horigin : (origin st i <= i)%Z).
    { unfold origin. destruct Hok as [(Hs & _) | [[Hs | Hs] Hlt]]; rewrite Hs; lia. }
    assert (Hhere : forall pre', pre' = [] -> pair_start e = origin st i ->
              (state st <> START /\ pre' = [] /\ pair_start e = start st)
              \/ ((i <= pair_start e)%Z
                  /\ idle (fst (run st (chars_from i
                             (take (Z.to_nat (pair_start e - i)) (l :: ls)))))
                  /\ snd (run st (chars_from i
                             (take (Z.to_nat (pair_start e - i)) (l :: ls)))) = pre')).
    { intros pre' -> Hps. unfold origin in Hps.
      destruct Hok as [Hidle | [Hkv Hlt]].
      - right. pose proof Hidle as (Hs & _). rewrite Hs in Hps.
        rewrite Hps, Z.sub_diag. simpl. split; [lia | split; [exact Hidle | reflexivity]].
      - left. assert (Hs : state st <> START) by (destruct Hkv as [-> | ->]; discriminate).
        repeat split; [exact Hs |].
        destruct (state st); [contradiction | exact Hps..]. }
    assert (Hlater : forall pre' ,
              (i + 1 <= pair_start e)%Z ->
              idle (fst (run st1 (chars_from (i + 1)
                         (take (Z.to_nat (pair_start e - (i + 1))) ls)))) ->
              snd (run st1 (chars_from (i + 1)
                         (take (Z.to_nat (pair_start e - (i + 1))) ls))) = pre' ->
              (i <= pair_start e)%Z
              /\ idle (fst (run st (chars_from i
                         (take (Z.to_nat (pair_start e - i)) (l :: ls)))))
              /\ snd (run st (chars_from i
                         (take (Z.to_nat (pair_start e - i)) (l :: ls))))
                 = snd (run st (line_chars i l)) ++ pre').
    { intros pre' Hle Hidle Hpre.
      replace (Z.to_nat (pair_start e - i))
        with (S (Z.to_nat (pair_start e - (i + 1)))) by lia.
      simpl take. simpl chars_from. rewrite run_app. cbn [fst snd].
      fold st1. split; [lia | split; [exact Hidle | now rewrite Hpre]]. }
    destruct Hcase as [[Hnil Hstart] | [Hreset (e0 & Hone & Hps & Hlen)]].
    + (* nothing yielded on this line *)
      rewrite Hnil in Hys. simpl in Hys.
      destruct (IH st1 (i + 1)%Z pre e post Hok1 Hys) as (Hl & Hb & Hloc).
      split; [exact Hl |]. split; [simpl length; lia |].
      destruct Hloc as [(Hs1 & Hpre & Hps) | (Hle & Hidle & Hpre)].
      * apply Hhere; [exact Hpre | rewrite Hps; apply Hstart, Hs1].
      * right. destruct (Hlater pre Hle Hidle Hpre) as (H1 & H2 & H3).
        rewrite Hnil in H3. split; [exact H1 | split; [exact H2 | exact H3]].
    + (* one entry yielded on this line *)
      rewrite Hone in Hys. simpl in Hys.
      destruct pre as [| e1 pre'].
      * simpl in Hys. inversion Hys; subst e0.
        split; [lia |]. split; [simpl length; lia |].
        apply Hhere; [reflexivity | exact Hps].
      * simpl in Hys. inversion Hys; subst e1.
        destruct (IH st1 (i + 1)%Z pre' e post Hok1 H1) as (Hl & Hb & Hloc).
        split; [exact Hl |]. split; [simpl length; lia |].
        destruct Hloc as [(Hs1 & _) | (Hle & Hidle & Hpre)].
        -- exfalso. apply Hs1. now rewrite Hreset.
        -- right. destruct (Hlater pre' Hle Hidle Hpre) as (H2 & H3 & H4).
           rewrite Hone in H4. split; [exact H2 | split; [exact H3 | exact H4]].
Qed.

Lemma listPairs_located (ls : list string) (pre post : list Entry) (e : Entry) :
  listPairs ls = pre ++ e :: post ->
  (0 <= pair_start e)%Z /\ (0 < pair_len e)%Z
  /\ (pair_start e + pair_len e <= Z.of_nat (length ls))%Z
  /\ idle (fst (run newState (chars (take (Z.to_nat (pair_start e)) ls))))
  /\ snd (run newState (chars (take (Z.to_nat (pair_start e)) ls))) = pre.
Proof.
  intros Hys. unfold listPairs, chars in *.
  destruct (entries_located ls newState 0 pre e post
              (or_introl idle_newState) Hys) as (Hl & Hb & Hloc).
  destruct Hloc as [(Hs & _) | (Hle & Hidle & Hpre)].
  - exfalso. apply Hs. reflexivity.
  - rewrite Z.sub_0_r in *.
    split; [exact Hle |]. split; [exact Hl |]. split; [lia |].
    split; [exact Hidle | exact Hpre].
Qed.

(** The first entry with a key splits the entries. *)
Lemma first_match_split (es : list Entry) (k : string) (e : Entry) :
  first_match es k = Some e ->
  exists pre post,
    es = pre ++ e :: post /\ first_match pre k = None /\ pair_key e = k.
Proof.
  unfold first_match.
  induction es as [| e0 es IH]; intros Hf; simpl in Hf; [discriminate |].
  destruct (String.eqb_spec k (pair_key e0)) as [Hk | Hk].
  - inversion Hf; subst e0. exists [], es. repeat split. now symmetry.
  - destruct (IH Hf) as (pre & post & -> & Hnone & Hkey).
    exists (e0 :: pre), post. repeat split; [| exact Hkey].
    simpl. destruct (String.eqb_spec k (pair_key e0)); [contradiction | exact Hnone].
Qed.

(** ** Reading back a rendered line *)

(** The escaped spelling of the first key character, read between two
    entries: the entry begins on this line and the key holds the
    character. *)
Lemma key_unit_from_START (st : TokState) (i : Z) (c : ascii) (index : nat) :
  idle st -> printable_char c = true ->
  run st (text_chars i (escape_char c index true true))
  = (set_key (str c) (set_start i (set_state KEY (set_skipSpace false st))), []).
Proof.
  intros (Hs & Hk & Hsp & Hv & He) Hp.
  destruct st as [s st0 k sp v sk en]; simpl in *; subst s k sp v en.
  destruct sk; all_chars c; try discriminate Hp; reflexivity.
Qed.

(** The escaped spelling of one key character, read inside the key. *)
Lemma key_unit (st : TokState) (i : Z) (c : ascii) (index : nat) :
  state st = KEY -> escapedNext st = false -> skipSpace st = false ->
  printable_char c = true ->
  run st (text_chars i (escape_char c index true true))
  = (set_key (key st +:+ str c) st, []).
Proof.
  intros Hs He Hsk Hp.
  destruct st as [s st0 k sp v sk en]; simpl in *; subst s sk en.
  all_chars c; try discriminate Hp; reflexivity.
Qed.

Lemma key_phase (i : Z) (k : string) :
  forall st index,
    state st = KEY -> escapedNext st = false -> skipSpace st = false ->
    printable k = true ->
    run st (text_chars i (escape_from index k true true))
    = (set_key (key st +:+ k) st, []).
Proof.
  induction k as [| c k IH]; intros st index Hs He Hsk Hp.
  - simpl. rewrite append_nil_r. now destruct st.
  - simpl in Hp. apply andb_prop in Hp as [Hc Hk].
    simpl escape_from. rewrite text_chars_app, run_app.
    rewrite (key_unit st i c index Hs He Hsk Hc). cbn [fst snd].
    rewrite IH by (destruct st; simpl in *; assumption).
    destruct st; simpl. now rewrite append_assoc.
Qed.

(** The first separator character, read at the end of the key. *)
Lemma separator_first (st : TokState) (i : Z) (c : ascii) :
  state st = KEY -> escapedNext st = false -> skipSpace st = false ->
  sep st = "" ->
  Ascii.eqb c " " || Ascii.eqb c "=" || Ascii.eqb c ":" = true ->
  step st (Ch c) i = (set_sep (str c) (set_state SEPARATOR st), []).
Proof.
  intros Hs He Hsk Hsp Hc.
  destruct st as [s st0 k sp v sk en]; simpl in *; subst s sk en sp.
  char_cases c; try discriminate Hc; reflexivity.
Qed.

Lemma non_space_count_zero (s : string) :
  non_space_count s = 0%nat -> has_separator_char s = false.
Proof.
  induction s as [| x s IH]; simpl; [reflexivity |].
  destruct (Ascii.eqb_spec x " ") as [-> | Hx]; simpl; [exact IH | lia].
Qed.

Lemma separator_phase (i : Z) (sp' : string) :
  forall st,
    state st = SEPARATOR -> skipSpace st = false ->
    only_separator_chars sp' = true ->
    (non_space_count (sep st) + non_space_count sp' <= 1)%nat ->
    run st (text_chars i sp') = (set_sep (sep st +:+ sp') st, []).
Proof.
  induction sp' as [| c sp' IH]; intros st Hs Hsk Ho Hn.
  - simpl. rewrite append_nil_r. now destruct st.
  - simpl in Ho. apply andb_prop in Ho as [Hc Ho].
    change (text_chars i (String c sp')) with ((Ch c, i) :: text_chars i sp').
    rewrite run_cons.
    assert (Hstep : step st (Ch c) i = (set_sep (sep st +:+ str c) st, [])).
    { destruct st as [s st0 k sp v sk en]; simpl in *; subst s sk.
      char_cases c; try discriminate Hc; step_simpl; try reflexivity.
      all: rewrite (non_space_count_zero sp) by (simpl in Hn; lia); reflexivity. }
    rewrite Hstep. cbn [fst snd].
    rewrite IH; try (destruct st; simpl in *; assumption).
    + destruct st; simpl. now rewrite append_assoc.
    + destruct st; simpl in *. rewrite non_space_count_app. simpl. lia.
Qed.

(** The escaped spelling of the first value character, read at the end of
    the separator. *)
Lemma value_unit_from_SEPARATOR (st : TokState) (i : Z) (c : ascii) :
  state st = SEPARATOR -> escapedNext st = false -> skipSpace st = false ->
  value st = "" -> printable_char c = true ->
  run st (text_chars i (escape_char c 0 false true))
  = (set_value (str c) (set_state VALUE st), []).
Proof.
  intros Hs He Hsk Hv Hp.
  destruct st as [s st0 k sp v sk en]; simpl in *; subst s sk en v.
  all_chars c; try discriminate Hp; reflexivity.
Qed.

(** The escaped spelling of one value character, read inside the value. *)
Lemma value_unit (st : TokState) (i : Z) (c : ascii) (index : nat) :
  state st = VALUE -> escapedNext st = false -> skipSpace st = false ->
  printable_char c = true ->
  run st (text_chars i (escape_char c index false true))
  = (set_value (value st +:+ str c) st, []).
Proof.
  intros Hs He Hsk Hp.
  destruct st as [s st0 k sp v sk en]; simpl in *; subst s sk en.
  destruct index; all_chars c; try discriminate Hp; reflexivity.
Qed.

Lemma value_phase (i : Z) (v : string) :
  forall st index,
    state st = VALUE -> escapedNext st = false -> skipSpace st = false ->
    printable v = true ->
    run st (text_chars i (escape_from index v false true))
    = (set_value (value st +:+ v) st, []).
Proof.
  induction v as [| c v IH]; intros st index Hs He Hsk Hp.
  - simpl. rewrite append_nil_r. now destruct st.
  - simpl in Hp. apply andb_prop in Hp as [Hc Hv].
    simpl escape_from. rewrite text_chars_app, run_app.
    rewrite (value_unit st i c index Hs He Hsk Hc). cbn [fst snd].
    rewrite IH by (destruct st; simpl in *; assumption).
    destruct st; simpl. now rewrite append_assoc.
Qed.

Lemma text_chars_cons (i : Z) (c : ascii) (l : string) :
  text_chars i (String c l) = (Ch c, i) :: text_chars i l.
Proof. reflexivity. Qed.

(** Sequencing a stretch of characters that yields nothing. *)
Lemma run_app_silent (st st1 : TokState) (cs1 cs2 : list (Char * Z))
      (r : TokState * list Entry) :
  run st cs1 = (st1, []) -> run st1 cs2 = r -> run st (cs1 ++ cs2) = r.
Proof.
  intros H1 H2. rewrite run_app, H1. cbn [fst snd app]. rewrite H2.
  now destruct r.
Qed.

Lemma run_cons_silent (st st1 : TokState) (ch : Char) (i : Z)
      (cs : list (Char * Z)) (r : TokState * list Entry) :
  step st ch i = (st1, []) -> run st1 cs = r -> run st ((ch, i) :: cs) = r.
Proof.
  intros H1 H2. rewrite run_cons, H1. cbn [fst snd app]. rewrite H2.
  now destruct r.
Qed.

Lemma run_single (st : TokState) (ch : Char) (i : Z) :
  run st [(ch, i)] = step st ch i.
Proof. simpl. destruct (step st ch i). now rewrite app_nil_r. Qed.

(** A whole rendered line, read between two entries, is one entry with
    the key, the separator and the value it was rendered from. *)
Lemma rendered_line_parses (st : TokState) (i : Z) (k sp' v : string) :
  idle st -> k <> "" -> printable k = true -> printable v = true ->
  sp' <> "" -> only_separator_chars sp' = true ->
  (non_space_count sp' <= 1)%nat ->
  run st (line_chars i (rendered_line k sp' v))
  = (newState,
     [ {| pair_start := i; pair_len := 1; pair_sep := sp';
          pair_key := k; pair_value := v |} ]).
Proof.
  intros Hidle Hk Hpk Hpv Hsp Ho Hn.
  destruct k as [| c k]; [contradiction |].
  destruct sp' as [| d sp']; [contradiction |].
  simpl in Hpk. apply andb_prop in Hpk as [Hc Hpk].
  simpl in Ho. apply andb_prop in Ho as [Hd Ho].
  assert (Hn' : (non_space_count (str d) + non_space_count sp' <= 1)%nat).
  { revert Hn. simpl. destruct (Ascii.eqb d " "); simpl; lia. }
  rewrite line_chars_text.
  unfold rendered_line, escapeKey, escapeValue, escape.
  simpl escape_from at 1.
  rewrite !text_chars_app, text_chars_cons, <- !app_assoc.
  pose proof (key_unit_from_START st i c 0 Hidle Hc) as Hku.
  destruct Hidle as (Hs & Hkey & Hsep & Hval & Hesc).
  destruct st as [s st0 k0 sp0 v0 sk en].
  cbn [state key sep value escapedNext] in Hs, Hkey, Hsep, Hval, Hesc.
  subst s k0 sp0 v0 en.
  (* the key *)
  eapply run_app_silent; [exact Hku |].
  eapply run_app_silent;
    [apply key_phase; try reflexivity; exact Hpk |].
  (* the separator *)
  rewrite <- app_comm_cons.
  eapply run_cons_silent;
    [apply separator_first; try reflexivity; exact Hd |].
  eapply run_app_silent;
    [apply separator_phase; try reflexivity; [exact Ho | exact Hn'] |].
  (* the value, then the end of the line *)
  destruct v as [| x v].
  - cbn [escape_from text_chars list_ascii_of_string map app].
    rewrite run_single, step_EOL. cbn. unfold yield_entry; cbn.
    repeat f_equal. lia.
  - simpl in Hpv. apply andb_prop in Hpv as [Hx Hpv].
    simpl escape_from. rewrite text_chars_app, <- app_assoc.
    eapply run_app_silent;
      [apply value_unit_from_SEPARATOR; try reflexivity; exact Hx |].
    eapply run_app_silent;
      [apply value_phase; try reflexivity; exact Hpv |].
    rewrite run_single, step_EOL. cbn. unfold yield_entry; cbn.
    repeat f_equal. lia.
Qed.

(** ** Replacing the lines of an entry *)

(** When the key has an entry, [set] splices the line range of the first
    such entry, which lies inside the array. *)
Lemma set_found_lines (config : Properties) (k v : string) (e : Entry) :
  first_match (listPairs (lines config)) k = Some e ->
  (0 <= pair_start e)%Z /\ (0 < pair_len e)%Z
  /\ (pair_start e + pair_len e <= Z.of_nat (length (lines config)))%Z
  /\ lines (set config k (Some v))
     = take (Z.to_nat (pair_start e)) (lines config)
       ++ [rendered_line k (separator_or_default (pair_sep e)) v]
       ++ drop (Z.to_nat (pair_start e + pair_len e)) (lines config).
Proof.
  intros Hf.
  destruct (first_match_split _ _ _ Hf) as (pre & post & Hes & _ & _).
  destruct (listPairs_located _ _ _ _ Hes) as (H0 & Hl & Hb & _).
  split; [exact H0 |]. split; [exact Hl |]. split; [exact Hb |].
  unfold set, findValue. rewrite (findValue_loop_found _ _ _ _ Hf).
  cbn [found_start found_len found_sep].
  replace ((0 <=? pair_start e)%Z && (0 <? pair_len e)%Z) with true
    by (symmetry; apply andb_true_intro; split;
        [apply Z.leb_le | apply Z.ltb_lt]; lia).
  cbn [lines]. unfold splice.
  replace (pair_start e <? 0)%Z with false by (symmetry; apply Z.ltb_ge; lia).
  rewrite (Z.min_l (pair_start e)) by lia.
  rewrite (Z.max_l (pair_len e)) by lia.
  rewrite Z.min_l by lia. reflexivity.
Qed.

(** C5, as stated, fails when the entry found has no separator (a key
    alone on its line): the rendered line then uses [=], not the entry's
    empty separator. *)
Lemma set_existing_key_counterexample :
  first_match (listPairs ["b"]) "b"
  = Some {| pair_start := 0; pair_len := 1; pair_sep := "";
            pair_key := "b"; pair_value := "" |}
  /\ lines (set {| lines := ["b"] |} "b" (Some "X")) = ["b=X"]
  /\ lines (set {| lines := ["b"] |} "b" (Some "X"))
     <> take 0 ["b"] ++ [rendered_line "b" "" "X"] ++ drop 1 ["b"].
Proof. split; [| split]; [reflexivity | reflexivity | discriminate]. Qed.

(** C5, amended. Frame property of [set] on an existing key: when the
    key has an entry, the line range of the first such entry is replaced
    by one line, the escaped key, the entry's separator ([=] when that
    separator is empty) and the escaped value, and every line before and
    after the range, duplicates included, is unchanged; so setting [b] to
    [X] in [a=1], [b = 2], [c: 3] serializes with [b = X] in the middle. *)
Theorem set_existing_key_frame (config : Properties) (k v : string) (e : Entry) :
  first_match (listPairs (lines config)) k = Some e ->
  ((0 <= pair_start e)%Z /\ (0 < pair_len e)%Z
   /\ (pair_start e + pair_len e <= Z.of_nat (length (lines config)))%Z)
  /\ lines (set config k (Some v))
     = take (Z.to_nat (pair_start e)) (lines config)
       ++ [escapeKey k +:+ (if truthy (pair_sep e) then pair_sep e else "=")
                       +:+ escapeValue v]
       ++ drop (Z.to_nat (pair_start e + pair_len e)) (lines config)
  /\ stringify (set (parse ("a=1" +:+ nl +:+ "b = 2" +:+ nl +:+ "c: 3"))
                    "b" (Some "X"))
     = "a=1" +:+ nl +:+ "b = X" +:+ nl +:+ "c: 3" +:+ nl.
Proof.
  intros Hf.
  destruct (set_found_lines config k v e Hf) as (H0 & Hl & Hb & Hset).
  split; [repeat split; assumption |]. split; [exact Hset |].
  vm_compute; reflexivity.
Qed.

Lemma set_existing_key_frame_witness :
  ((0 <= 1)%Z /\ (0 < 2)%Z /\ (1 + 2 <= Z.of_nat 5)%Z)
  /\ lines (set {| lines := ["a=0"; String.append "k : a" (str BSL); "b";
                             "# note"; "k=2"] |} "k" (Some "new"))
     = take 1 ["a=0"; String.append "k : a" (str BSL); "b"; "# note"; "k=2"]
       ++ ["k : new"]
       ++ drop 3 ["a=0"; String.append "k : a" (str BSL); "b"; "# note"; "k=2"]
  /\ stringify (set (parse ("a=1" +:+ nl +:+ "b = 2" +:+ nl +:+ "c: 3"))
                    "b" (Some "X"))
     = "a=1" +:+ nl +:+ "b = X" +:+ nl +:+ "c: 3" +:+ nl.
Proof.
  exact (set_existing_key_frame
           {| lines := ["a=0"; String.append "k : a" (str BSL); "b";
                        "# note"; "k=2"] |} "k" "new"
           {| pair_start := 1; pair_len := 2; pair_sep := " : ";
              pair_key := "k"; pair_value := "ab" |} eq_refl).
Defined.

(** ** Reading a key back after [set] *)

Lemma first_match_app (a b : list Entry) (k : string) :
  first_match (a ++ b) k
  = match first_match a k with
    | Some e => Some e
    | None => first_match b k
    end.
Proof.
  unfold first_match. induction a as [| e a IH]; simpl; [reflexivity |].
  destruct (String.eqb k (pair_key e)); [reflexivity | exact IH].
Qed.

Lemma separator_or_default_ok (s : string) :
  separator_ok s ->
  separator_or_default s <> ""
  /\ only_separator_chars (separator_or_default s) = true
  /\ (non_space_count (separator_or_default s) <= 1)%nat.
Proof.
  intros [Ho Hn]. unfold separator_or_default.
  destruct (truthy s) eqn:Ht.
  - apply truthy_spec in Ht. repeat split; assumption.
  - repeat split; simpl; [discriminate | lia].
Qed.

Lemma last_observed_separator_ok (ls : list string) :
  default "=" (last_observed_separator (listPairs ls)) <> ""
  /\ only_separator_chars
       (default "=" (last_observed_separator (listPairs ls))) = true
  /\ (non_space_count
        (default "=" (last_observed_separator (listPairs ls))) <= 1)%nat.
Proof.
  destruct (last_observed_separator (listPairs ls)) as [s |] eqn:Hl; simpl.
  - split; [exact (last_observed_separator_nonempty _ _ Hl) |].
    unfold last_observed_separator in Hl.
    apply last_Some in Hl as [l' Hl'].
    assert (Hin : s ∈ filter (fun s => s <> "") (map pair_sep (listPairs ls)))
      by (rewrite Hl'; apply elem_of_app; right;
          apply list_elem_of_singleton; reflexivity).
    apply list_elem_of_filter in Hin as [_ Hin].
    apply list_elem_of_In, in_map_iff in Hin as (e & <- & Hin).
    pose proof (listPairs_separator_ok ls) as Hall.
    rewrite List.Forall_forall in Hall. exact (Hall e Hin).
  - repeat split; simpl; [discriminate | lia].
Qed.

(** The entries of a line array in which one rendered line follows lines
    whose scan stops between two entries. *)
Lemma listPairs_rendered (before after : list string) (k sp' v : string) :
  idle (fst (run newState (chars before))) ->
  k <> "" -> printable k = true -> printable v = true ->
  sp' <> "" -> only_separator_chars sp' = true ->
  (non_space_count sp' <= 1)%nat ->
  exists rest,
    listPairs (before ++ rendered_line k sp' v :: after)
    = snd (run newState (chars before))
      ++ {| pair_start := Z.of_nat (length before); pair_len := 1;
            pair_sep := sp'; pair_key := k; pair_value := v |} :: rest.
Proof.
  intros Hidle Hk Hpk Hpv Hsp Ho Hn.
  unfold listPairs, chars in *.
  rewrite chars_from_app, run_app. cbn [fst snd chars_from].
  rewrite run_app. cbn [fst snd].
  rewrite (rendered_line_parses _ _ k sp' v Hidle Hk Hpk Hpv Hsp Ho Hn).
  cbn [fst snd]. eexists. rewrite Z.add_0_l. reflexivity.
Qed.

Lemma final_state_idle (ls : list string) :
  scan_ends_idle ls = true -> idle (fst (run newState (chars ls))).
Proof.
  unfold scan_ends_idle, final_state, chars. intros Hs.
  destruct (line_ok_lines ls newState 0 (or_introl idle_newState))
    as [Hidle | [[Hk | Hv] _]]; [exact Hidle | |].
  - rewrite Hk in Hs. discriminate.
  - rewrite Hv in Hs. discriminate.
Qed.




(** ** Splitting and joining lines *)

(** Induction on strings that may step over two characters at once. *)
Lemma string_length_ind (P : string -> Prop) :
  (forall s, (forall s', (String.length s' < String.length s)%nat -> P s') -> P s) ->
  forall s, P s.
Proof.
  intros Hstep s.
  assert (H : forall n s', (String.length s' < n)%nat -> P s').
  { induction n as [| n IH]; intros s' Hlt; [lia |].
    apply Hstep. intros s'' Hlt'. apply IH. lia. }
  apply (H (S (String.length s))). lia.
Qed.

Lemma split_terminators_nonempty (s : string) : split_terminators s <> [].
Proof.
  destruct s as [| c rest]; simpl; [discriminate |].
  destruct (Ascii.eqb c CR).
  - destruct rest as [| d rest']; [discriminate |].
    destruct (Ascii.eqb d LF); discriminate.
  - destruct (Ascii.eqb c LF); [discriminate |].
    destruct (split_terminators rest); discriminate.
Qed.

Lemma split_terminators_no_LF (s : string) :
  Forall (fun l => no_LF l = true) (split_terminators s).
Proof.
  induction s as [s IH] using string_length_ind.
  destruct s as [| c rest]; simpl.
  - repeat constructor.
  - destruct (Ascii.eqb c CR).
    + destruct rest as [| d rest'].
      * repeat constructor.
      * destruct (Ascii.eqb d LF); constructor; try reflexivity;
          apply IH; simpl; lia.
    + destruct (Ascii.eqb c LF) eqn:Hc.
      * constructor; [reflexivity | apply IH; simpl; lia].
      * pose proof (IH rest ltac:(simpl; lia)) as Hrest.
        destruct (split_terminators rest) as [| l ls].
        -- repeat constructor. simpl. now rewrite Hc.
        -- inversion Hrest as [| ? ? Hl Hls]; subst.
           constructor; [simpl; now rewrite Hc, Hl | exact Hls].
Qed.

Lemma join_cons (sp : string) (l : string) (ls : list string) :
  ls <> [] -> join sp (l :: ls) = l +:+ sp +:+ join sp ls.
Proof. destruct ls; [contradiction | reflexivity]. Qed.

Lemma join_cons_char (sp : string) (c : ascii) (l : string) (ls : list string) :
  join sp (String c l :: ls) = String c (join sp (l :: ls)).
Proof. destruct ls; reflexivity. Qed.

Lemma join_snoc (sp : string) (ls : list string) (x : string) :
  ls <> [] -> join sp (ls ++ [x]) = join sp ls +:+ sp +:+ x.
Proof.
  induction ls as [| l ls IH]; intros Hne; [contradiction |].
  destruct ls as [| l2 ls].
  - reflexivity.
  - change ((l :: l2 :: ls) ++ [x]) with (l :: ((l2 :: ls) ++ [x])).
    rewrite (join_cons sp l ((l2 :: ls) ++ [x])) by (simpl; discriminate).
    rewrite IH by discriminate.
    rewrite (join_cons sp l (l2 :: ls)) by discriminate.
    now rewrite !append_assoc.
Qed.

(** Joining the lines of a text with LF is its terminator
    normalization. *)
Lemma join_split_terminators (s : string) :
  join nl (split_terminators s) = normalize_terminators s.
Proof.
  induction s as [s IH] using string_length_ind.
  destruct s as [| c rest]; [reflexivity |].
  simpl. destruct (Ascii.eqb c CR).
  - destruct rest as [| d rest']; [reflexivity |].
    destruct (Ascii.eqb d LF).
    + rewrite join_cons by apply split_terminators_nonempty.
      rewrite IH by (simpl; lia). reflexivity.
    + rewrite join_cons by apply split_terminators_nonempty.
      rewrite (IH (String d rest')) by (simpl; lia). reflexivity.
  - destruct (Ascii.eqb c LF) eqn:Hc.
    + apply Ascii.eqb_eq in Hc. subst c.
      rewrite join_cons by apply split_terminators_nonempty.
      rewrite IH by (simpl; lia). reflexivity.
    + pose proof (IH rest ltac:(simpl; lia)) as Hrest.
      pose proof (split_terminators_nonempty rest) as Hne.
      destruct (split_terminators rest) as [| l ls]; [contradiction |].
      rewrite join_cons_char. now rewrite Hrest.
Qed.

(** ** The end of a text *)

Lemma last_char_app (a b : string) :
  b <> "" -> last_char (a +:+ b) = last_char b.
Proof.
  intros Hb. induction a as [| c a IH]; [reflexivity |].
  simpl. rewrite IH.
  destruct (a +:+ b) eqn:Hab; [| reflexivity].
  destruct a; simpl in Hab; [contradiction | discriminate].
Qed.

Lemma drop_last_snoc (a : string) (c : ascii) : drop_last (a +:+ str c) = a.
Proof.
  induction a as [| x a IH]; [reflexivity |].
  simpl. rewrite IH. destruct (a +:+ str c) eqn:Ha; [| reflexivity].
  destruct a; discriminate.
Qed.

Lemma ends_with_LF_snoc (a : string) (c : ascii) :
  ends_with_LF (a +:+ str c) = Ascii.eqb c LF.
Proof. unfold ends_with_LF. now rewrite last_char_app by discriminate. Qed.

Lemma append_not_empty_r (a b : string) : b <> "" -> a +:+ b <> "".
Proof. destruct a; simpl; [auto | discriminate]. Qed.

Lemma append_not_empty_l (a b : string) : a <> "" -> a +:+ b <> "".
Proof. destruct a; simpl; [contradiction | discriminate]. Qed.

Lemma eqb_not_empty (s : string) : s <> "" -> String.eqb s "" = false.
Proof. intros H. now destruct (String.eqb_spec s ""). Qed.

(** A non-empty text that does not end in LF gains one. *)
Lemma adjust_trailing_add (s : string) :
  s <> "" -> ends_with_LF s = false -> adjust_trailing s = s +:+ nl.
Proof.
  intros Hs He. unfold adjust_trailing.
  now rewrite (eqb_not_empty _ Hs), He.
Qed.

(** A text that ends in exactly one LF is kept. *)
Lemma adjust_trailing_keep (s : string) :
  s <> "" -> ends_with_LF s = false ->
  adjust_trailing (s +:+ nl) = s +:+ nl.
Proof.
  intros Hs He. unfold adjust_trailing, nl.
  rewrite eqb_not_empty by (apply append_not_empty_l, Hs).
  now rewrite ends_with_LF_snoc, drop_last_snoc, He.
Qed.

(** A text that ends in two LF loses one. *)
Lemma adjust_trailing_drop (s : string) :
  adjust_trailing ((s +:+ nl) +:+ nl) = s +:+ nl.
Proof.
  unfold adjust_trailing, nl.
  rewrite eqb_not_empty by (apply append_not_empty_r; discriminate).
  now rewrite ends_with_LF_snoc, drop_last_snoc, ends_with_LF_snoc.
Qed.

Lemma no_LF_ends (l : string) :
  no_LF l = true -> ends_with_LF l = false.
Proof.
  unfold ends_with_LF. induction l as [| c l IH]; [reflexivity |].
  simpl. intros H. apply andb_prop in H as [Hc Hl].
  destruct l as [| d l]; [now apply negb_true_iff in Hc | exact (IH Hl)].
Qed.

(** ** Leading empty lines *)

Lemma length_zero_empty (l : string) :
  (String.length l =? 0)%nat = true <-> l = "".
Proof. destruct l; simpl; split; intros H; congruence. Qed.

Lemma line_empty_middle (pre : list string) (l : string) (rest : list string) :
  line_empty (pre ++ l :: rest) (length pre) = (String.length l =? 0)%nat.
Proof.
  unfold line_empty. rewrite lookup_app_r by lia.
  now rewrite Nat.sub_diag.
Qed.

(** The loop of [stringify] stops by its condition, on the index of the
    first line it keeps. *)
Lemma stringify_start_drop (fuel : nat) :
  forall pre ls,
    (length ls <= fuel)%nat ->
    drop (stringify_start fuel (pre ++ ls) (length pre)) (pre ++ ls)
    = drop_leading_empty ls.
Proof.
  induction fuel as [| fuel IH]; intros pre ls Hlen.
  - destruct ls; [| simpl in Hlen; lia].
    simpl. rewrite app_nil_r. apply drop_all.
  - destruct ls as [| l [| l2 rest]].
    + simpl. rewrite app_nil_r.
      replace (Z.of_nat (length pre) <? Z.of_nat (length pre) - 1)%Z
        with false by (symmetry; apply Z.ltb_ge; lia).
      simpl. apply drop_all.
    + simpl stringify_start. rewrite length_app. simpl length.
      replace (Z.of_nat (length pre) <? Z.of_nat (length pre + 1) - 1)%Z
        with false by (symmetry; apply Z.ltb_ge; lia).
      simpl. now rewrite drop_app_length.
    + simpl stringify_start. rewrite length_app. simpl length.
      replace (Z.of_nat (length pre)
               <? Z.of_nat (length pre + S (S (length rest))) - 1)%Z
        with true by (symmetry; apply Z.ltb_lt; lia).
      rewrite line_empty_middle. simpl andb.
      destruct (String.length l =? 0)%nat eqn:Hl.
      * change (drop_leading_empty (l :: l2 :: rest))
          with (if (String.length l =? 0)%nat
                then drop_leading_empty (l2 :: rest) else l :: l2 :: rest).
        rewrite Hl.
        replace (pre ++ l :: l2 :: rest) with ((pre ++ [l]) ++ l2 :: rest)
          by now rewrite <- app_assoc.
        replace (S (length pre)) with (length (pre ++ [l]))
          by (rewrite length_app; simpl; lia).
        apply IH. simpl in Hlen |- *. lia.
      * change (drop_leading_empty (l :: l2 :: rest))
          with (if (String.length l =? 0)%nat
                then drop_leading_empty (l2 :: rest) else l :: l2 :: rest).
        rewrite Hl. now rewrite drop_app_length.
Qed.

Lemma stringify_lines (ls : list string) :
  stringify {| lines := ls |}
  = join nl (add_trailing (drop_leading_empty ls)).
Proof.
  unfold stringify, add_trailing. cbn [lines].
  pose proof (stringify_start_drop (length ls) [] ls (le_n _)) as H.
  cbn [app length] in H. now rewrite H.
Qed.

Lemma parse_lines_snoc (text : string) (ls : list string) (x : string) :
  split_terminators text = ls ++ [x] ->
  lines (parse text) = if (String.length x =? 0)%nat then ls else ls ++ [x].
Proof.
  intros Hs. unfold parse. rewrite Hs. cbn [lines].
  rewrite length_app. simpl length.
  replace (length ls + 1 - 1)%nat with (length ls) by lia.
  rewrite line_empty_middle.
  replace (0 <? length ls + 1)%nat with true
    by (symmetry; apply Nat.ltb_lt; lia).
  simpl andb. destruct (String.length x =? 0)%nat; [| reflexivity].
  apply removelast_last.
Qed.

Lemma drop_empty_suffix (ls : list string) (P : string -> Prop) :
  Forall P ls -> Forall P (drop_empty ls).
Proof.
  induction 1 as [| l ls Hl Hls IH]; simpl; [constructor |].
  destruct (String.length l =? 0)%nat; [exact IH | now constructor].
Qed.

Lemma drop_empty_head (ls : list string) (z : string) (zs : list string) :
  drop_empty ls = z :: zs -> z <> "".
Proof.
  induction ls as [| l ls IH]; simpl; [discriminate |].
  destruct (String.length l =? 0)%nat eqn:Hl; [exact IH |].
  intros H. inversion H; subst. intros ->. discriminate.
Qed.

Lemma drop_empty_snoc (ls : list string) (x : string) :
  drop_empty (ls ++ [x])
  = match drop_empty ls with
    | [] => if (String.length x =? 0)%nat then [] else [x]
    | zs => zs ++ [x]
    end.
Proof.
  induction ls as [| l ls IH]; simpl; [reflexivity |].
  destruct (String.length l =? 0)%nat; [exact IH | reflexivity].
Qed.

Lemma drop_leading_empty_drop_empty (ls : list string) :
  ls <> [] ->
  drop_leading_empty ls
  = match drop_empty ls with [] => [""] | zs => zs end.
Proof.
  induction ls as [| l ls IH]; intros Hne; [contradiction |].
  destruct ls as [| l2 ls].
  - simpl. destruct (String.length l =? 0)%nat eqn:Hl; [| reflexivity].
    apply length_zero_empty in Hl. now subst.
  - change (drop_leading_empty (l :: l2 :: ls))
      with (if (String.length l =? 0)%nat
            then drop_leading_empty (l2 :: ls) else l :: l2 :: ls).
    simpl drop_empty at 1.
    destruct (String.length l =? 0)%nat; [| reflexivity].
    apply IH. discriminate.
Qed.

(** Dropping the leading line feeds of a joined text drops its leading
    empty lines. *)
Lemma strip_leading_LF_join (ls : list string) :
  Forall (fun l => no_LF l = true) ls ->
  strip_leading_LF (join nl ls) = join nl (drop_empty ls).
Proof.
  induction 1 as [| l ls Hl Hls IH]; [reflexivity |].
  destruct l as [| c l].
  - simpl drop_empty. destruct ls as [| l2 ls]; [reflexivity |].
    rewrite join_cons by discriminate. simpl. exact IH.
  - simpl drop_empty. rewrite join_cons_char. simpl in Hl |- *.
    apply andb_prop in Hl as [Hc _]. apply negb_true_iff in Hc.
    now rewrite Hc.
Qed.

Lemma add_trailing_snoc (ls : list string) (x : string) :
  add_trailing (ls ++ [x])
  = if (String.length x =? 0)%nat then ls ++ [x] else (ls ++ [x]) ++ [""].
Proof.
  unfold add_trailing. rewrite length_app. simpl length.
  replace (length ls + 1 - 1)%nat with (length ls) by lia.
  rewrite line_empty_middle.
  replace (0 <? length ls + 1)%nat with true
    by (symmetry; apply Nat.ltb_lt; lia).
  now destruct (String.length x =? 0)%nat.
Qed.

Lemma join_first_not_empty (z : string) (zs : list string) :
  z <> "" -> join nl (z :: zs) <> "".
Proof.
  intros Hz. destruct zs; simpl; [exact Hz | now apply append_not_empty_l].
Qed.

(** A joined text whose last line is not empty does not end in LF. *)
Lemma join_ends (ls : list string) (x : string) :
  no_LF x = true -> x <> "" -> ends_with_LF (join nl (ls ++ [x])) = false.
Proof.
  intros Hx Hne. destruct ls as [| l ls].
  - simpl. now apply no_LF_ends.
  - rewrite join_snoc by discriminate. unfold ends_with_LF.
    rewrite last_char_app by (apply append_not_empty_r, Hne).
    rewrite last_char_app by exact Hne.
    now apply no_LF_ends.
Qed.

Lemma join_snoc_empty (ls : list string) :
  ls <> [] -> join nl (ls ++ [""]) = join nl ls +:+ nl.
Proof. intros H. now rewrite join_snoc, append_nil_r by exact H. Qed.

(** [stringify] after [parse], on the lines of the text. *)
Lemma roundtrip_lines (ls : list string) (x : string) :
  Forall (fun l => no_LF l = true) (ls ++ [x]) ->
  join nl (add_trailing (drop_leading_empty
             (if (String.length x =? 0)%nat then ls else ls ++ [x])))
  = adjust_trailing (join nl (drop_empty (ls ++ [x]))).
Proof.
  intros Hall. apply Forall_app in Hall as [Hls Hx].
  inversion Hx as [| ? ? Hx' _]; subst. clear Hx.
  rewrite drop_empty_snoc.
  destruct (String.length x =? 0)%nat eqn:Hlen.
  - (* the text ends in a terminator: its last line is dropped by [parse] *)
    apply length_zero_empty in Hlen. subst x.
    destruct (drop_empty ls) as [| z zs] eqn:Hd.
    + destruct ls as [| l ls]; [reflexivity |].
      rewrite drop_leading_empty_drop_empty, Hd by discriminate. reflexivity.
    + rewrite drop_leading_empty_drop_empty, Hd
        by (intros ->; discriminate).
      pose proof (drop_empty_head _ _ _ Hd) as Hz.
      pose proof (drop_empty_suffix _ _ Hls) as Hzs. rewrite Hd in Hzs.
      destruct (exists_last (l := z :: zs) ltac:(discriminate))
        as (ys & y & Hy).
      rewrite Hy in *. rewrite add_trailing_snoc.
      rewrite (join_snoc_empty (ys ++ [y]))
        by (intros H; apply app_eq_nil in H as [_ H]; discriminate).
      destruct (String.length y =? 0)%nat eqn:Hylen.
      * apply length_zero_empty in Hylen. subst y.
        assert (Hys : ys <> []).
        { intros ->. simpl in Hy. inversion Hy. now subst. }
        rewrite join_snoc_empty by exact Hys.
        now rewrite adjust_trailing_drop.
      * rewrite join_snoc_empty
          by (intros H; apply app_eq_nil in H as [_ H]; discriminate).
        rewrite adjust_trailing_keep; [reflexivity | |].
        -- rewrite <- Hy. now apply join_first_not_empty.
        -- apply Forall_app in Hzs as [_ Hylf].
           inversion Hylf; subst. apply join_ends; [assumption |].
           intros ->. discriminate.
  - (* the text does not end in a terminator *)
    assert (Hne : x <> "") by (intros ->; discriminate).
    assert (Hd : exists ys,
               match drop_empty ls with [] => [x] | z :: zs => (z :: zs) ++ [x] end
               = ys ++ [x]).
    { destruct (drop_empty ls) as [| z zs]; [exists [] | exists (z :: zs)];
        reflexivity. }
    destruct Hd as (ys & Hd). rewrite Hd.
    rewrite drop_leading_empty_drop_empty
      by (intros H; apply app_eq_nil in H as [_ H]; discriminate).
    rewrite drop_empty_snoc, Hlen, Hd.
    assert (Hys : ys ++ [x] <> [])
      by (intros H; apply app_eq_nil in H as [_ H]; discriminate).
    destruct (ys ++ [x]) as [| w ws] eqn:Hw; [contradiction |].
    rewrite <- Hw. rewrite add_trailing_snoc, Hlen.
    rewrite join_snoc_empty
      by (intros H; apply app_eq_nil in H as [_ H]; discriminate).
    rewrite adjust_trailing_add; [reflexivity | |].
    + destruct ys as [| y ys']; [exact Hne |].
      rewrite join_snoc by discriminate.
      apply append_not_empty_r, append_not_empty_r, Hne.
    + now apply join_ends.
Qed.

(** C2, as stated, fails: the leading empty lines of a text are not
    kept, so the result differs from the text in more than its terminators
    and its end. *)
Lemma roundtrip_counterexample :
  stringify (parse (String LF (String LF "a"))) = String "a" nl
  /\ normalize_terminators (String LF (String LF "a")) = String LF (String LF "a")
  /\ strip_trailing_LF (stringify (parse (String LF (String LF "a"))))
     <> strip_trailing_LF (normalize_terminators (String LF (String LF "a"))).
Proof. split; [| split]; [reflexivity | reflexivity | discriminate]. Qed.

(** C2, amended. Round trip: for every text, [stringify (parse text)] is
    the text with every terminator normalized to LF, without its leading
    empty lines, and with its end adjusted: one LF is added when the text
    does not end in a terminator, one is removed when it ends in two, and
    nothing else changes. *)
Theorem parse_stringify_roundtrip (text : string) :
  stringify (parse text)
  = adjust_trailing (strip_leading_LF (normalize_terminators text)).
Proof.
  rewrite <- join_split_terminators.
  rewrite strip_leading_LF_join by apply split_terminators_no_LF.
  pose proof (split_terminators_no_LF text) as Hall.
  destruct (exists_last (split_terminators_nonempty text)) as (ls & x & Hs).
  rewrite Hs in *.
  rewrite <- (roundtrip_lines ls x Hall).
  rewrite <- (parse_lines_snoc text ls x Hs).
  destruct (parse text) as [pl]. cbn [lines]. apply stringify_lines.
Qed.

(** The three cases at the end of a text, and leading empty lines, on
    concrete texts. *)
Example roundtrip_examples :
  stringify (parse (str CR +:+ nl +:+ nl +:+ "a=1" +:+ str CR +:+ "b=2"))
  = "a=1" +:+ nl +:+ "b=2" +:+ nl
  /\ stringify (parse ("a=1" +:+ nl)) = "a=1" +:+ nl
  /\ stringify (parse ("a=1" +:+ nl +:+ nl +:+ nl)) = "a=1" +:+ nl +:+ nl
  /\ stringify (parse (nl +:+ nl)) = ""
  /\ stringify (parse "") = "".
Proof. repeat split; reflexivity. Qed.

(** ** Supplements *)

(** The loop of [stringify] leaves by its condition: with [length ls]
    iterations allowed, the index it returns fails the loop test. *)
Lemma stringify_start_exit (fuel : nat) :
  forall ls start0,
    (length ls <= fuel + start0)%nat ->
    (Z.of_nat (stringify_start fuel ls start0) <? Z.of_nat (length ls) - 1)%Z
    && line_empty ls (stringify_start fuel ls start0) = false.
Proof.
  induction fuel as [| fuel IH]; intros ls start0 Hlen; simpl.
  - replace (Z.of_nat start0 <? Z.of_nat (length ls) - 1)%Z with false
      by (symmetry; apply Z.ltb_ge; lia).
    reflexivity.
  - destruct ((Z.of_nat start0 <? Z.of_nat (length ls) - 1)%Z
              && line_empty ls start0) eqn:Hcond.
    + apply IH. lia.
    + exact Hcond.
Qed.

(** A last line that does not end in an unescaped backslash leaves no
    continuation pending: the scan ends between two entries. *)
Lemma scan_ends_idle_last_line (ls : list string) (l : string) :
  ends_unescaped_backslash l = false -> scan_ends_idle (ls ++ [l]) = true.
Proof.
  intros Hl. unfold scan_ends_idle, final_state, chars.
  rewrite chars_from_app, run_app. cbn [fst snd chars_from].
  rewrite app_nil_r, run_line.
  set (st0 := fst (run newState (chars_from 0 ls))).
  assert (H0 : line_start_inv st0)
    by (apply line_start_inv_lines, line_start_inv_newState).
  pose proof (pending_rel_text (0 + Z.of_nat (length ls)) l _ _
                (line_start_pending _ H0)) as Hrel.
  fold (ends_unescaped_backslash l) in Hrel. rewrite Hl in Hrel.
  rewrite step_EOL.
  destruct (fst (run st0 (text_chars (0 + Z.of_nat (length ls)) l)))
    as [s st1 k sp v sk en].
  destruct Hrel as [Hc | [He _]]; simpl in *; subst.
  - reflexivity.
  - now destruct s.
Qed.

Lemma scan_ends_idle_nil : scan_ends_idle [] = true.
Proof. reflexivity. Qed.

Lemma foldl_snoc {A B} (f : A -> B -> A) (a : A) (l : list B) (x : B) :
  foldl f a (l ++ [x]) = f (foldl f a l) x.
Proof. revert a. induction l as [| y l IH]; intros a; simpl; [reflexivity | apply IH]. Qed.

(** [toMap] holds, for every key, the value of the last entry with it. *)
Lemma toMap_last_match (config : Properties) (k : string) :
  toMap config !! k = pair_value <$> last_match (listPairs (lines config)) k.
Proof.
  unfold toMap, last_match.
  induction (listPairs (lines config)) as [| e es IH] using rev_ind;
    [reflexivity |].
  rewrite foldl_snoc, rev_app_distr. simpl rev. simpl app.
  unfold first_match at 1. simpl.
  destruct (String.eqb_spec k (pair_key e)) as [-> | Hne].
  - now rewrite lookup_insert_eq.
  - rewrite lookup_insert_ne by congruence. exact IH.
Qed.

(** So does [toObject], for every key but ["__proto__"], which it never
    holds. *)
Lemma toObject_last_match (config : Properties) (k : string) :
  toObject config !! k
  = if String.eqb k "__proto__" then None
    else pair_value <$> last_match (listPairs (lines config)) k.
Proof.
  unfold toObject, last_match.
  induction (listPairs (lines config)) as [| e es IH] using rev_ind.
  - simpl. now destruct (String.eqb k "__proto__").
  - rewrite foldl_snoc, rev_app_distr.
    change (rev [e] ++ rev es) with (e :: rev es).
    change (first_match (e :: rev es) k)
      with (if String.eqb k (pair_key e) then Some e
            else first_match (rev es) k).
    unfold object_assign at 1.
    destruct (String.eqb_spec (pair_key e) "__proto__") as [Hp | Hp].
    + rewrite IH. destruct (String.eqb_spec k "__proto__") as [Hk | Hk];
        [reflexivity |].
      destruct (String.eqb_spec k (pair_key e)); [congruence | reflexivity].
    + destruct (String.eqb_spec k (pair_key e)) as [-> | Hne].
      * rewrite lookup_insert_eq.
        destruct (String.eqb_spec (pair_key e) "__proto__");
          [contradiction | reflexivity].
      * rewrite lookup_insert_ne by congruence. exact IH.
Qed.

(** ** Further properties: reading a Document *)

Lemma first_match_none (es : list Entry) (k : string) :
  first_match es k = None <-> Forall (fun e => pair_key e <> k) es.
Proof.
  unfold first_match. induction es as [| e es IH]; simpl.
  - split; [constructor | reflexivity].
  - destruct (String.eqb_spec k (pair_key e)) as [Hk | Hk]; split.
    + discriminate.
    + intros H. inversion H; subst. congruence.
    + intros H. constructor; [congruence | now apply IH].
    + intros H. inversion H; subst. now apply IH.
Qed.

(** X1. [get] returns the value of the first entry whose key is the one
    asked for, and [undefined] exactly when no entry has that key (an entry
    with an empty value is found, with the empty string). *)
Theorem get_first_entry (config : Properties) (k : string) :
  get config k = pair_value <$> first_match (listPairs (lines config)) k
  /\ (get config k = None
      <-> Forall (fun e => pair_key e <> k) (listPairs (lines config))).
Proof.
  pose proof (get_first_match config k) as Hg. split; [exact Hg |].
  rewrite Hg, <- first_match_none.
  destruct (first_match (listPairs (lines config)) k); simpl;
    split; congruence.
Qed.

(** X2. [toMap] maps every key to the value of the last entry with that
    key, and has no other key. *)
Theorem toMap_last_entry (config : Properties) (k : string) :
  toMap config !! k = pair_value <$> last_match (listPairs (lines config)) k.
Proof. apply toMap_last_match. Qed.

(** X3. [toObject] has an own property for every key but ["__proto__"],
    holding the value of the last entry with that key; it never has an own
    property ["__proto__"]. *)
Theorem toObject_last_entry (config : Properties) (k : string) :
  toObject config !! k
  = if String.eqb k "__proto__" then None
    else pair_value <$> last_match (listPairs (lines config)) k.
Proof. apply toObject_last_match. Qed.

Lemma first_match_rev_none (es : list Entry) (k : string) :
  first_match (rev es) k = None <-> first_match es k = None.
Proof.
  rewrite !first_match_none, !List.Forall_forall.
  split; intros H e Hin; apply H; [now apply in_rev in Hin | now apply in_rev].
Qed.

Lemma first_match_unique (es : list Entry) (k : string) (e : Entry) :
  filter (fun e => pair_key e = k) es = [e] ->
  first_match es k = Some e /\ last_match es k = Some e.
Proof.
  unfold last_match. revert e.
  induction es as [| e0 es IH]; intros e Hf; [discriminate |].
  rewrite filter_cons in Hf. simpl rev. rewrite first_match_app.
  destruct (decide (pair_key e0 = k)) as [Hk | Hk].
  - inversion Hf as [[He Hrest]]. subst e0.
    assert (Hnone : first_match es k = None).
    { apply first_match_none. clear -Hrest.
      induction es as [| x es IH]; [constructor |].
      rewrite filter_cons in Hrest.
      destruct (decide (pair_key x = k)); [discriminate |].
      constructor; [assumption | now apply IH]. }
    split.
    + unfold first_match. simpl. subst k. now rewrite String.eqb_refl.
    + rewrite (proj2 (first_match_rev_none es k) Hnone).
      unfold first_match. simpl. subst k. now rewrite String.eqb_refl.
  - destruct (IH e Hf) as [H1 H2]. split.
    + unfold first_match in *. simpl.
      destruct (String.eqb_spec k (pair_key e0)); [congruence | exact H1].
    + now rewrite H2.
Qed.

(** X4. [get] and [toMap] agree on which keys a Document has, and on the
    value of every key that has a single entry. *)
Theorem get_toMap_agree (config : Properties) (k : string) :
  (get config k = None <-> toMap config !! k = None)
  /\ (forall e,
         filter (fun e => pair_key e = k) (listPairs (lines config)) = [e] ->
         get config k = Some (pair_value e)
         /\ toMap config !! k = Some (pair_value e)).
Proof.
  rewrite get_first_match, toMap_last_match. unfold last_match. split.
  - pose proof (first_match_rev_none (listPairs (lines config)) k) as Hrev.
    destruct (first_match (listPairs (lines config)) k),
             (first_match (rev (listPairs (lines config))) k);
      simpl; split; try congruence; intros _; exfalso;
      destruct Hrev as [H1 H2]; try (discriminate (H1 eq_refl));
      discriminate (H2 eq_refl).
  - intros e Hf. destruct (first_match_unique _ _ _ Hf) as [-> H2].
    unfold last_match in H2. rewrite H2. split; reflexivity.
Qed.

Lemma get_toMap_agree_witness :
  get {| lines := ["a=1"; "b : two"; "c"] |} "b" = Some "two"
  /\ toMap {| lines := ["a=1"; "b : two"; "c"] |} !! "b" = Some "two".
Proof.
  exact (proj2 (get_toMap_agree {| lines := ["a=1"; "b : two"; "c"] |} "b")
           {| pair_start := 1; pair_len := 1; pair_sep := " : ";
              pair_key := "b"; pair_value := "two" |} eq_refl).
Defined.

(** ** Further properties: the entries of a scan *)

(** X5. Every entry lies on lines of the array: its first line is at
    least 0, it spans at least one line, and it ends inside the array. *)
Theorem entry_span_in_bounds (ls : list string) (e : Entry) :
  In e (listPairs ls) ->
  (0 <= pair_start e)%Z /\ (1 <= pair_len e)%Z
  /\ (pair_start e + pair_len e <= Z.of_nat (length ls))%Z.
Proof.
  intros Hin. apply in_split in Hin as (pre & post & Hes).
  destruct (listPairs_located _ _ _ _ Hes) as (H0 & Hl & Hb & _).
  repeat split; lia.
Qed.

Lemma entry_span_in_bounds_witness :
  (0 <= 1)%Z /\ (1 <= 2)%Z /\ (1 + 2 <= Z.of_nat 3)%Z.
Proof.
  apply (entry_span_in_bounds ["# c"; String.append "k = a" (str BSL); "b"]
           {| pair_start := 1; pair_len := 2; pair_sep := " = ";
              pair_key := "k"; pair_value := "ab" |}).
  vm_compute. left. reflexivity.
Defined.

Lemma listPairs_take_prefix (ls : list string) (pre post : list Entry) (e : Entry) :
  listPairs ls = pre ++ e :: post ->
  listPairs (take (Z.to_nat (pair_start e)) ls) = pre.
Proof.
  intros Hes. destruct (listPairs_located _ _ _ _ Hes) as (_ & _ & _ & _ & H).
  exact H.
Qed.

(** X6. Entries come in line order and their line ranges do not overlap:
    an entry yielded before another ends before the other begins. *)
Theorem entries_ordered (ls : list string) (pre post : list Entry) (e1 e2 : Entry) :
  listPairs ls = pre ++ e2 :: post -> In e1 pre ->
  (pair_start e1 + pair_len e1 <= pair_start e2)%Z.
Proof.
  intros Hes Hin.
  pose proof (listPairs_take_prefix _ _ _ _ Hes) as Hpre.
  destruct (listPairs_located _ _ _ _ Hes) as (H0 & _ & Hb & _).
  rewrite <- Hpre in Hin. apply in_split in Hin as (p1 & p2 & Hp).
  destruct (listPairs_located _ _ _ _ Hp) as (_ & _ & Hb1 & _).
  rewrite length_take in Hb1. lia.
Qed.

Lemma entries_ordered_witness : (0 + 2 <= 3)%Z.
Proof.
  apply (entries_ordered [String.append "a=1" (str BSL); "2"; "# c"; "b=3"]
           [ {| pair_start := 0; pair_len := 2; pair_sep := "=";
                pair_key := "a"; pair_value := "12" |} ] []
           {| pair_start := 0; pair_len := 2; pair_sep := "=";
              pair_key := "a"; pair_value := "12" |}
           {| pair_start := 3; pair_len := 1; pair_sep := "=";
              pair_key := "b"; pair_value := "3" |}).
  - reflexivity.
  - left. reflexivity.
Defined.

Lemma comment_text (i : Z) (l : string) :
  forall st,
    state st = COMMENT -> skipSpace st = false ->
    run st (text_chars i l) = (st, []).
Proof.
  induction l as [| c l IH]; intros st Hs Hsk; [reflexivity |].
  rewrite text_chars_cons.
  assert (Hstep : step st (Ch c) i = (st, [])).
  { destruct st as [s st0 k sp v sk en]; simpl in *; subst s sk.
    char_cases c; step_simpl; reflexivity. }
  eapply run_cons_silent; [exact Hstep | now apply IH].
Qed.

Lemma comment_or_blank_line (st : TokState) (i : Z) (l : string) :
  idle st -> comment_or_blank l = true ->
  idle (fst (run st (line_chars i l))) /\ snd (run st (line_chars i l)) = [].
Proof.
  intros Hidle Hl. rewrite run_line.
  destruct l as [| c l].
  - simpl. rewrite step_EOL.
    destruct Hidle as (Hs & Hk & Hsp & Hv & He). rewrite Hs. simpl.
    repeat split; assumption.
  - simpl in Hl. rewrite text_chars_cons, run_cons.
    assert (Hstep : exists st1,
               step st (Ch c) i = (st1, [])
               /\ state st1 = COMMENT /\ skipSpace st1 = false).
    { destruct Hidle as (Hs & _).
      destruct st as [s st0 k sp v sk en]; simpl in *; subst s.
      destruct sk; char_cases c; try discriminate Hl; step_simpl;
        eexists; repeat split. }
    destruct Hstep as (st1 & Hstep & Hs1 & Hsk1).
    rewrite Hstep. cbn [fst snd app].
    rewrite (comment_text i l st1 Hs1 Hsk1). cbn [fst].
    rewrite step_EOL, Hs1. split; [apply idle_newState | reflexivity].
Qed.

(** X7. Comment lines and empty lines yield no entry: a Document all of
    whose lines are empty or start with [#] or [!] has no entries. *)
Theorem comments_yield_nothing (ls : list string) :
  forallb comment_or_blank ls = true -> listPairs ls = [].
Proof.
  unfold listPairs, chars. generalize 0%Z.
  assert (H : forall st z, idle st -> forallb comment_or_blank ls = true ->
              snd (run st (chars_from z ls)) = []).
  { induction ls as [| l ls IH]; intros st z Hidle Hall; [reflexivity |].
    simpl in Hall. apply andb_prop in Hall as [Hl Hall].
    simpl chars_from. rewrite run_app. cbn [fst snd].
    destruct (comment_or_blank_line st z l Hidle Hl) as [Hidle1 ->].
    cbn [app]. now apply IH. }
  intros z Hall. apply H; [apply idle_newState | exact Hall].
Qed.

Lemma comments_yield_nothing_witness :
  listPairs ["# a=1"; ""; "! b : 2"; String.append "#c" (str BSL); "#d=3"] = [].
Proof. apply comments_yield_nothing. reflexivity. Defined.

(** X8. Appending lines to a Document keeps the entries it had: they
    are the first entries of the longer Document, in the same order. *)
Theorem listPairs_app_prefix (ls more : list string) :
  listPairs (ls ++ more)
  = listPairs ls
    ++ snd (run (final_state ls) (chars_from (Z.of_nat (length ls)) more)).
Proof.
  unfold listPairs, final_state, chars.
  now rewrite chars_from_app, run_app.
Qed.

(** ** Further properties: lines and text *)

Lemma split_terminators_no_terminator (s : string) :
  Forall (fun l => no_terminator l = true) (split_terminators s).
Proof.
  induction s as [s IH] using string_length_ind.
  destruct s as [| c rest]; simpl.
  - repeat constructor.
  - destruct (Ascii.eqb c CR) eqn:Hcr.
    + destruct rest as [| d rest'].
      * repeat constructor.
      * destruct (Ascii.eqb d LF); constructor; try reflexivity;
          apply IH; simpl; lia.
    + destruct (Ascii.eqb c LF) eqn:Hc.
      * constructor; [reflexivity | apply IH; simpl; lia].
      * pose proof (IH rest ltac:(simpl; lia)) as Hrest.
        assert (Hcc : negb (is_line_terminator c) = true)
          by (unfold is_line_terminator; now rewrite Hc, Hcr).
        destruct (split_terminators rest) as [| l ls].
        -- repeat constructor. simpl. now rewrite Hcc.
        -- inversion Hrest as [| ? ? Hl Hls]; subst.
           constructor; [simpl; now rewrite Hcc, Hl | exact Hls].
Qed.

Lemma Forall_removelast {A} (P : A -> Prop) (l : list A) :
  Forall P l -> Forall P (removelast l).
Proof.
  induction 1 as [| x l Hx Hl IH]; simpl; [constructor |].
  destruct l; [constructor | now constructor].
Qed.

(** X9. No line of a parsed text contains a line terminator. *)
Theorem parse_lines_no_terminator (text : string) :
  Forall (fun l => no_terminator l = true) (lines (parse text)).
Proof.
  unfold parse. cbn [lines].
  pose proof (split_terminators_no_terminator text) as H.
  destruct ((0 <? length (split_terminators text))%nat
            && line_empty (split_terminators text)
                 (length (split_terminators text) - 1));
    [now apply Forall_removelast | exact H].
Qed.

(** X10. The text [stringify] returns is empty or ends in a line feed. *)
Theorem stringify_ends_with_LF (config : Properties) :
  stringify config = "" \/ ends_with_LF (stringify config) = true.
Proof.
  destruct config as [ls]. rewrite stringify_lines.
  destruct (drop_leading_empty ls) as [| d ds] eqn:Hd; [left; reflexivity |].
  destruct (exists_last (l := d :: ds) ltac:(discriminate)) as (ys & y & Hy).
  rewrite Hy, add_trailing_snoc.
  assert (Hz : exists zs,
             (if (String.length y =? 0)%nat then ys ++ [y]
              else (ys ++ [y]) ++ [""]) = zs ++ [""]).
  { destruct (String.length y =? 0)%nat eqn:Hlen.
    - apply length_zero_empty in Hlen. subst y. now exists ys.
    - now exists (ys ++ [y]). }
  destruct Hz as (zs & ->).
  destruct zs as [| z zs]; [left; reflexivity | right].
  rewrite join_snoc_empty by discriminate.
  unfold nl. now rewrite ends_with_LF_snoc.
Qed.

Lemma no_terminator_first (l : string) (s : string) :
  no_terminator l = true ->
  split_terminators (l +:+ String LF s) = l :: split_terminators s.
Proof.
  induction l as [| c l IH]; intros Hl; [reflexivity |].
  simpl in Hl. apply andb_prop in Hl as [Hc Hl].
  apply negb_true_iff in Hc. unfold is_line_terminator in Hc.
  apply orb_false_elim in Hc as [Hlf Hcr].
  simpl. rewrite Hcr, Hlf. now rewrite (IH Hl).
Qed.

Lemma no_terminator_single (l : string) :
  no_terminator l = true -> split_terminators l = [l].
Proof.
  induction l as [| c l IH]; intros Hl; [reflexivity |].
  simpl in Hl. apply andb_prop in Hl as [Hc Hl].
  apply negb_true_iff in Hc. unfold is_line_terminator in Hc.
  apply orb_false_elim in Hc as [Hlf Hcr].
  simpl. rewrite Hcr, Hlf. now rewrite (IH Hl).
Qed.

(** Splitting undoes joining, for lines without terminators. *)
Lemma split_join (ls : list string) :
  ls <> [] -> Forall (fun l => no_terminator l = true) ls ->
  split_terminators (join nl ls) = ls.
Proof.
  intros Hne Hall. induction Hall as [| l ls Hl Hls IH]; [contradiction |].
  destruct ls as [| l2 ls].
  - now apply no_terminator_single.
  - rewrite join_cons by discriminate. unfold nl at 1.
    change (l +:+ str LF +:+ join nl (l2 :: ls))
      with (l +:+ String LF (join nl (l2 :: ls))).
    rewrite no_terminator_first by exact Hl.
    f_equal. apply IH. discriminate.
Qed.

(** X11. A Document whose lines hold no line terminator, and whose first
    and last lines are not empty, is read back unchanged from its
    serialization; so is the empty Document. *)
Theorem parse_stringify_lines (ls : list string) :
  Forall (fun l => no_terminator l = true) ls ->
  head ls <> Some "" -> last ls <> Some "" ->
  parse (stringify {| lines := ls |}) = {| lines := ls |}.
Proof.
  intros Hall Hhead Hlast. rewrite stringify_lines.
  destruct ls as [| l rest]; [reflexivity |].
  assert (Hl : (String.length l =? 0)%nat = false).
  { destruct l; [exfalso; now apply Hhead | reflexivity]. }
  assert (Hd : drop_leading_empty (l :: rest) = l :: rest).
  { destruct rest; [reflexivity |].
    change (drop_leading_empty (l :: s :: rest))
      with (if (String.length l =? 0)%nat
            then drop_leading_empty (s :: rest) else l :: s :: rest).
    now rewrite Hl. }
  rewrite Hd.
  destruct (exists_last (l := l :: rest) ltac:(discriminate)) as (ys & y & Hy).
  rewrite Hy in *. rewrite last_snoc in Hlast.
  assert (Hylen : (String.length y =? 0)%nat = false).
  { destruct y; [exfalso; now apply Hlast | reflexivity]. }
  rewrite add_trailing_snoc, Hylen.
  assert (Hsplit : split_terminators (join nl ((ys ++ [y]) ++ [""]))
                   = (ys ++ [y]) ++ [""]).
  { apply split_join.
    - intros H. apply app_eq_nil in H as [_ H]. discriminate.
    - apply Forall_app. split; [exact Hall | repeat constructor]. }
  pose proof (parse_lines_snoc _ _ _ Hsplit) as Hp.
  destruct (parse (join nl ((ys ++ [y]) ++ [""]))) as [pl].
  cbn [lines] in Hp. f_equal. exact Hp.
Qed.

Lemma parse_stringify_lines_witness :
  parse (stringify {| lines := ["# head"; ""; "a = 1"; "  b:2"] |})
  = {| lines := ["# head"; ""; "a = 1"; "  b:2"] |}.
Proof.
  apply parse_stringify_lines;
    [repeat constructor | discriminate | discriminate].
Defined.

(** ** Further properties: the escape codec *)

Lemma printable_app (a b : string) :
  printable (a +:+ b) = printable a && printable b.
Proof.
  induction a as [| c a IH]; simpl; [reflexivity |].
  now rewrite IH, andb_assoc.
Qed.

Lemma escape_char_printable (c : ascii) (index : nat) (escapeSpace : bool) :
  printable (escape_char c index escapeSpace true) = true.
Proof. all_chars c; destruct index, escapeSpace; reflexivity. Qed.

(** X12. With [escapeUnicode] on (the default), [escape] emits printable
    ASCII only, whatever the text: every other character is spelled with a
    backslash escape. *)
Theorem escape_output_printable (text : string) (escapeSpace : bool) :
  printable (escape text escapeSpace true) = true
  /\ printable (escapeKey text) = true
  /\ printable (escapeValue text) = true.
Proof.
  assert (H : forall b s index, printable (escape_from index s b true) = true).
  { intros b s. induction s as [| c s IH]; intros index; [reflexivity |].
    simpl escape_from. now rewrite printable_app, escape_char_printable, IH. }
  repeat split; apply H.
Qed.

Lemma unescape_escape_char_raw (c : ascii) (index : nat) (escapeSpace : bool)
      (rest : string) :
  unescape (escape_char c index escapeSpace false +:+ rest)
  = String c (unescape rest).
Proof. all_chars c; destruct index, escapeSpace; reflexivity. Qed.

(** X13. With [escapeUnicode] off, [unescape] undoes [escape] on every
    text, for keys and for values. *)
Theorem unescape_escape_raw (text : string) (escapeSpace : bool) :
  unescape (escape text escapeSpace false) = text.
Proof.
  unfold escape. generalize 0%nat.
  induction text as [| c s IH]; intros index; [reflexivity |].
  simpl escape_from. rewrite unescape_escape_char_raw. f_equal. apply IH.
Qed.





(** X15. The tokenizer reads a rendered line back: the line made of an
    escaped key, a separator and an escaped value holds exactly one entry,
    with that key, that separator and that value. *)
Theorem rendered_line_entry (k sp' v : string) :
  k <> "" -> printable k = true -> printable v = true ->
  sp' <> "" -> only_separator_chars sp' = true ->
  (non_space_count sp' <= 1)%nat ->
  listPairs [escapeKey k +:+ sp' +:+ escapeValue v]
  = [ {| pair_start := 0; pair_len := 1; pair_sep := sp';
         pair_key := k; pair_value := v |} ].
Proof.
  intros Hk Hpk Hpv Hsp Ho Hn. unfold listPairs, chars.
  simpl chars_from. rewrite app_nil_r.
  change (escapeKey k +:+ sp' +:+ escapeValue v) with (rendered_line k sp' v).
  now rewrite (rendered_line_parses newState 0 k sp' v idle_newState).
Qed.

Lemma rendered_line_entry_witness :
  listPairs [escapeKey "a key" +:+ " : " +:+ escapeValue " = v\"]
  = [ {| pair_start := 0; pair_len := 1; pair_sep := " : ";
         pair_key := "a key"; pair_value := " = v\" |} ].
Proof.
  apply rendered_line_entry;
    [discriminate | reflexivity | reflexivity | discriminate | reflexivity
    | simpl; lia].
Defined.

(** ** Further properties: [set] and [remove] *)

Lemma Properties_eq (a b : Properties) : lines a = lines b -> a = b.
Proof. destruct a, b. simpl. now intros ->. Qed.

Lemma remove_not_found_lines (config : Properties) (k : string) :
  first_match (listPairs (lines config)) k = None ->
  lines (remove config k) = lines config.
Proof.
  intros Hnone. unfold remove, set, findValue.
  rewrite (findValue_loop_not_found _ _ _ Hnone). simpl. apply app_nil_r.
Qed.

Lemma remove_found_lines (config : Properties) (k : string) (e : Entry) :
  first_match (listPairs (lines config)) k = Some e ->
  lines (remove config k)
  = take (Z.to_nat (pair_start e)) (lines config)
    ++ drop (Z.to_nat (pair_start e + pair_len e)) (lines config).
Proof.
  intros Hf.
  destruct (first_match_split _ _ _ Hf) as (pre & post & Hes & _ & _).
  destruct (listPairs_located _ _ _ _ Hes) as (H0 & Hl & Hb & _).
  unfold remove, set, findValue. rewrite (findValue_loop_found _ _ _ _ Hf).
  cbn [found_start found_len found_sep].
  replace ((0 <=? pair_start e)%Z && (0 <? pair_len e)%Z) with true
    by (symmetry; apply andb_true_intro; split;
        [apply Z.leb_le | apply Z.ltb_lt]; lia).
  cbn [lines]. unfold splice.
  replace (pair_start e <? 0)%Z with false by (symmetry; apply Z.ltb_ge; lia).
  rewrite (Z.min_l (pair_start e)) by lia.
  rewrite (Z.max_l (pair_len e)) by lia.
  rewrite Z.min_l by lia. reflexivity.
Qed.

(** X16. Removing a key that has no entry leaves the Document as it
    is. *)
Theorem remove_missing_key (config : Properties) (k : string) :
  first_match (listPairs (lines config)) k = None ->
  remove config k = config.
Proof. intros H. apply Properties_eq, remove_not_found_lines, H. Qed.

Lemma remove_missing_key_witness :
  remove {| lines := ["# a=1"; "b=2"] |} "a" = {| lines := ["# a=1"; "b=2"] |}.
Proof. apply remove_missing_key. reflexivity. Defined.

(** X17. Removing a key that has an entry deletes the lines of its first
    entry and no other line: the lines before and after that range are
    kept, duplicates of the key included, and the array gets shorter by
    the number of lines of the entry. *)
Theorem remove_existing_key_frame (config : Properties) (k : string) (e : Entry) :
  first_match (listPairs (lines config)) k = Some e ->
  lines (remove config k)
  = take (Z.to_nat (pair_start e)) (lines config)
    ++ drop (Z.to_nat (pair_start e + pair_len e)) (lines config)
  /\ Z.of_nat (length (lines (remove config k)))
     = (Z.of_nat (length (lines config)) - pair_len e)%Z.
Proof.
  intros Hf. pose proof (remove_found_lines config k e Hf) as Hr.
  split; [exact Hr |].
  destruct (first_match_split _ _ _ Hf) as (pre & post & Hes & _ & _).
  destruct (listPairs_located _ _ _ _ Hes) as (H0 & Hl & Hb & _).
  rewrite Hr, length_app, length_take, length_drop. lia.
Qed.

Lemma remove_existing_key_frame_witness :
  lines (remove {| lines := ["a=0"; String.append "k : a" (str BSL); "b";
                             "# note"; "k=2"] |} "k")
  = ["a=0"; "# note"; "k=2"]
  /\ Z.of_nat (length (lines (remove {| lines := ["a=0";
                 String.append "k : a" (str BSL); "b"; "# note"; "k=2"] |} "k")))
     = (Z.of_nat 5 - 2)%Z.
Proof.
  exact (remove_existing_key_frame
           {| lines := ["a=0"; String.append "k : a" (str BSL); "b";
                        "# note"; "k=2"] |} "k"
           {| pair_start := 1; pair_len := 2; pair_sep := " : ";
              pair_key := "k"; pair_value := "ab" |} eq_refl).
Defined.

(** Where [set] writes: the lines it keeps before and after the rendered
    line, and the separator it renders with, do not depend on the value. *)
Lemma set_shape (config : Properties) (k : string) :
  first_match (listPairs (lines config)) k <> None
  \/ scan_ends_idle (lines config) = true ->
  exists before after sp',
    (forall v, lines (set config k (Some v))
               = before ++ rendered_line k sp' v :: after)
    /\ lines (remove config k) = before ++ after
    /\ idle (fst (run newState (chars before)))
    /\ first_match (snd (run newState (chars before))) k = None
    /\ sp' <> "" /\ only_separator_chars sp' = true
    /\ (non_space_count sp' <= 1)%nat.
Proof.
  intros Hcase.
  destruct (first_match (listPairs (lines config)) k) as [e |] eqn:Hf.
  - clear Hcase.
    destruct (first_match_split _ _ _ Hf) as (pre & post & Hes & Hpre & Hkey).
    destruct (listPairs_located _ _ _ _ Hes) as (_ & _ & _ & Hidle & Hsnd).
    assert (He : separator_ok (pair_sep e)).
    { pose proof (listPairs_separator_ok (lines config)) as Hall.
      rewrite List.Forall_forall in Hall. apply Hall.
      rewrite Hes. apply in_or_app. right. left. reflexivity. }
    destruct (separator_or_default_ok _ He) as (Hne & Ho & Hn).
    exists (take (Z.to_nat (pair_start e)) (lines config)),
           (drop (Z.to_nat (pair_start e + pair_len e)) (lines config)),
           (separator_or_default (pair_sep e)).
    split; [intros v; now destruct (set_found_lines config k v e Hf)
                            as (_ & _ & _ & ->) |].
    split; [exact (remove_found_lines config k e Hf) |].
    split; [exact Hidle |]. split; [now rewrite Hsnd |].
    repeat split; assumption.
  - destruct Hcase as [Hc | Hidle]; [contradiction |].
    destruct (last_observed_separator_ok (lines config)) as (Hne & Ho & Hn).
    exists (lines config), [],
           (default "=" (last_observed_separator (listPairs (lines config)))).
    split; [intros v; exact (set_not_found_lines config k v Hf) |].
    split; [rewrite app_nil_r; exact (remove_not_found_lines config k Hf) |].
    split; [exact (final_state_idle _ Hidle) |].
    split; [exact Hf |]. repeat split; assumption.
Qed.

(** The first entry for the key, in a Document [set] has written to. *)
Lemma first_match_rendered (before after : list string) (k sp' v : string) :
  idle (fst (run newState (chars before))) ->
  first_match (snd (run newState (chars before))) k = None ->
  k <> "" -> printable k = true -> printable v = true ->
  sp' <> "" -> only_separator_chars sp' = true ->
  (non_space_count sp' <= 1)%nat ->
  first_match (listPairs (before ++ rendered_line k sp' v :: after)) k
  = Some {| pair_start := Z.of_nat (length before); pair_len := 1;
            pair_sep := sp'; pair_key := k; pair_value := v |}.
Proof.
  intros Hidle Hnone Hk Hpk Hpv Hsp Ho Hn.
  destruct (listPairs_rendered before after k sp' v Hidle Hk Hpk Hpv Hsp Ho Hn)
    as (rest & ->).
  rewrite first_match_app, Hnone.
  unfold first_match. simpl. now rewrite String.eqb_refl.
Qed.

Lemma take_drop_rendered (before after : list string) (r : string) :
  take (Z.to_nat (Z.of_nat (length before))) (before ++ r :: after) = before
  /\ drop (Z.to_nat (Z.of_nat (length before) + 1)) (before ++ r :: after)
     = after.
Proof.
  rewrite Nat2Z.id. split; [apply take_app_length |].
  replace (Z.to_nat (Z.of_nat (length before) + 1)) with (S (length before))
    by lia.
  change (before ++ r :: after) with (before ++ [r] ++ after).
  rewrite app_assoc.
  replace (S (length before)) with (length (before ++ [r]))
    by (rewrite length_app; simpl; lia).
  apply drop_app_length.
Qed.

(** X18. The last write wins: setting a key twice gives the Document that
    setting it once to the second value gives, whatever the second
    value. *)
Theorem set_set (config : Properties) (k v1 v2 : string) :
  k <> "" -> printable k = true -> printable v1 = true ->
  first_match (listPairs (lines config)) k <> None
  \/ scan_ends_idle (lines config) = true ->
  set (set config k (Some v1)) k (Some v2) = set config k (Some v2).
Proof.
  intros Hk Hpk Hpv Hcase. apply Properties_eq.
  destruct (set_shape config k Hcase)
    as (before & after & sp' & Hset & _ & Hidle & Hnone & Hsp & Ho & Hn).
  pose proof (first_match_rendered before after k sp' v1
                Hidle Hnone Hk Hpk Hpv Hsp Ho Hn) as Hf.
  rewrite <- (Hset v1) in Hf.
  destruct (set_found_lines _ k v2 _ Hf) as (_ & _ & _ & ->).
  cbn [pair_start pair_len pair_sep]. rewrite (Hset v1), (Hset v2).
  destruct (take_drop_rendered before after (rendered_line k sp' v1))
    as [-> ->].
  unfold separator_or_default.
  apply truthy_spec in Hsp. now rewrite Hsp.
Qed.

Lemma set_set_witness :
  set (set {| lines := ["a=1"; "b = 2"; "b=3"] |} "b" (Some "x y"))
      "b" (Some (str TAB))
  = set {| lines := ["a=1"; "b = 2"; "b=3"] |} "b" (Some (str TAB)).
Proof.
  apply set_set; [discriminate | reflexivity | reflexivity |].
  left. discriminate.
Defined.

(** X19. Removing a key just set gives the Document that removing it
    from the original gives; when the key was new, that is the original
    Document. *)
Theorem remove_set (config : Properties) (k v : string) :
  k <> "" -> printable k = true -> printable v = true ->
  first_match (listPairs (lines config)) k <> None
  \/ scan_ends_idle (lines config) = true ->
  remove (set config k (Some v)) k = remove config k
  /\ (first_match (listPairs (lines config)) k = None ->
      remove (set config k (Some v)) k = config).
Proof.
  intros Hk Hpk Hpv Hcase.
  assert (Hrem : remove (set config k (Some v)) k = remove config k).
  { apply Properties_eq.
    destruct (set_shape config k Hcase)
      as (before & after & sp' & Hset & Hrem & Hidle & Hnone & Hsp & Ho & Hn).
    pose proof (first_match_rendered before after k sp' v
                  Hidle Hnone Hk Hpk Hpv Hsp Ho Hn) as Hf.
    rewrite <- (Hset v) in Hf.
    rewrite (remove_found_lines _ k _ Hf), Hrem.
    cbn [pair_start pair_len]. rewrite (Hset v).
    now destruct (take_drop_rendered before after (rendered_line k sp' v))
      as [-> ->]. }
  split; [exact Hrem |].
  intros Hnone. rewrite Hrem. apply Properties_eq.
  now apply remove_not_found_lines.
Qed.

Lemma remove_set_witness :
  remove (set {| lines := ["a=1"; "# end"] |} "new key" (Some "v=1")) "new key"
  = remove {| lines := ["a=1"; "# end"] |} "new key"
  /\ (first_match (listPairs ["a=1"; "# end"]) "new key" = None ->
      remove (set {| lines := ["a=1"; "# end"] |} "new key" (Some "v=1"))
             "new key"
      = {| lines := ["a=1"; "# end"] |}).
Proof.
  apply (remove_set {| lines := ["a=1"; "# end"] |} "new key" "v=1");
    [discriminate | reflexivity | reflexivity |].
  right. reflexivity.
Defined.

(** ** Further properties: the entries after [set] *)

(** The tokenizer does not depend on how lines are numbered. *)
Lemma step_shift (st st' : TokState) (ch : Char) (line d : Z) :
  sim d st st' ->
  sim d (fst (step st ch line)) (fst (step st' ch (line + d)))
  /\ snd (step st' ch (line + d))
     = map (shift_entry d) (snd (step st ch line)).
Proof.
  intros (Hs & Hk & Hsp & Hv & Hsk & He & Hst).
  destruct st as [s st0 k sp v sk en], st' as [s' st0' k' sp' v' sk' en'].
  simpl in *. subst s' k' sp' v' sk' en'.
  destruct ch as [c |].
  - destruct s, sk, en;
      try (specialize (Hst ltac:(discriminate)); subst st0');
      char_cases c; step_simpl;
      try (destruct (has_separator_char sp));
      (split; [solve_sim | reflexivity]).
  - rewrite !step_EOL. cbn [state escapedNext].
    destruct s, en;
      try (specialize (Hst ltac:(discriminate)); subst st0');
      (split;
       [ solve_sim
       | cbn [snd map]; unfold yield_entry, shift_entry; cbn;
         try reflexivity;
         match goal with
         | |- context [(?l + d - (?s + d) + 1)%Z] =>
             replace (l + d - (s + d) + 1)%Z with (l - s + 1)%Z by lia
         end; reflexivity ]).
Qed.

Lemma run_shift (cs : list (Char * Z)) (d : Z) :
  forall st st',
    sim d st st' ->
    sim d (fst (run st cs)) (fst (run st' (map (shift_char d) cs)))
    /\ snd (run st' (map (shift_char d) cs))
       = map (shift_entry d) (snd (run st cs)).
Proof.
  induction cs as [| [ch line] cs IH]; intros st st' Hsim.
  - simpl. split; [exact Hsim | reflexivity].
  - change (map (shift_char d) ((ch, line) :: cs))
      with ((ch, (line + d)%Z) :: map (shift_char d) cs).
    rewrite !run_cons.
    destruct (step_shift st st' ch line d Hsim) as [Hsim1 Hy1].
    destruct (IH _ _ Hsim1) as [Hsim2 Hy2].
    cbn [fst snd]. split; [exact Hsim2 |].
    now rewrite Hy1, Hy2, map_app.
Qed.

Lemma chars_from_shift (ls : list string) (d : Z) :
  forall i, chars_from (i + d) ls = map (shift_char d) (chars_from i ls).
Proof.
  induction ls as [| l ls IH]; intros i; [reflexivity |].
  simpl chars_from. rewrite map_app.
  replace (i + d + 1)%Z with (i + 1 + d)%Z by lia. rewrite IH. f_equal.
  unfold line_chars. rewrite map_app, map_map. reflexivity.
Qed.

Lemma sim_newState (d : Z) : sim d newState newState.
Proof. solve_sim. Qed.

Lemma run_newState_shift (ls : list string) (i j : Z) :
  snd (run newState (chars_from j ls))
  = map (shift_entry (j - i)) (snd (run newState (chars_from i ls))).
Proof.
  replace j with (i + (j - i))%Z at 1 by lia.
  rewrite chars_from_shift.
  now destruct (run_shift (chars_from i ls) (j - i) _ _ (sim_newState (j - i))).
Qed.

(** The first entry of a scan that starts at the beginning of a line: the
    lines it spans yield it alone and reset the tokenizer, and the other
    entries are those of the lines after it. *)
Lemma first_entry_span (ls : list string) :
  forall st i e post,
    line_ok st i ->
    snd (run st (chars_from i ls)) = e :: post ->
    (i < pair_start e + pair_len e)%Z
    /\ fst (run st (chars_from i
              (take (Z.to_nat (pair_start e + pair_len e - i)) ls)))
       = newState
    /\ post = snd (run newState
                     (chars_from (pair_start e + pair_len e)
                        (drop (Z.to_nat (pair_start e + pair_len e - i)) ls))).
Proof.
  induction ls as [| l ls IH]; intros st i e post Hok Hys; [discriminate |].
  simpl chars_from in Hys. rewrite run_app in Hys. cbn [fst snd] in Hys.
  destruct (run_line_cases st i l Hok) as [Hok1 Hcase].
  destruct Hcase as [[Hnil _] | [Hreset (e0 & Hone & Hps & Hlen)]].
  - rewrite Hnil in Hys. cbn [app] in Hys.
    destruct (IH _ _ _ _ Hok1 Hys) as (Hlt & Hfst & Hpost).
    split; [lia |].
    replace (Z.to_nat (pair_start e + pair_len e - i))
      with (S (Z.to_nat (pair_start e + pair_len e - (i + 1)))) by lia.
    cbn [take drop]. simpl chars_from. rewrite run_app. cbn [fst].
    split; [exact Hfst | exact Hpost].
  - rewrite Hone in Hys. cbn [app] in Hys. inversion Hys; subst e0.
    assert (Hend : (pair_start e + pair_len e = i + 1)%Z) by lia.
    split; [lia |]. rewrite Hend.
    replace (Z.to_nat (i + 1 - i)) with 1%nat by lia.
    cbn [take drop]. simpl chars_from. rewrite app_nil_r.
    split; [exact Hreset | now rewrite Hreset].
Qed.

Lemma listPairs_rendered_rest (before after : list string) (k sp' v : string) :
  idle (fst (run newState (chars before))) ->
  k <> "" -> printable k = true -> printable v = true ->
  sp' <> "" -> only_separator_chars sp' = true ->
  (non_space_count sp' <= 1)%nat ->
  listPairs (before ++ rendered_line k sp' v :: after)
  = snd (run newState (chars before))
    ++ {| pair_start := Z.of_nat (length before); pair_len := 1;
          pair_sep := sp'; pair_key := k; pair_value := v |}
       :: snd (run newState
                 (chars_from (Z.of_nat (length before) + 1) after)).
Proof.
  intros Hidle Hk Hpk Hpv Hsp Ho Hn.
  unfold listPairs, chars in *.
  rewrite chars_from_app, run_app. cbn [fst snd chars_from].
  rewrite run_app. cbn [fst snd].
  rewrite (rendered_line_parses _ _ k sp' v Hidle Hk Hpk Hpv Hsp Ho Hn).
  cbn [fst snd]. now rewrite Z.add_0_l.
Qed.

(** The entries after [set]: those before the first entry for the key,
    the new entry, and those after it, moved if the entry replaced spanned
    several lines. *)
Lemma set_entries (config : Properties) (k v : string) :
  k <> "" -> printable k = true -> printable v = true ->
  first_match (listPairs (lines config)) k <> None
  \/ scan_ends_idle (lines config) = true ->
  exists pre old post d e',
    listPairs (lines config) = pre ++ old ++ post
    /\ first_match pre k = None
    /\ (old = [] /\ post = [] \/ exists e, old = [e] /\ pair_key e = k)
    /\ pair_key e' = k /\ pair_value e' = v
    /\ listPairs (lines (set config k (Some v)))
       = pre ++ e' :: map (shift_entry d) post.
Proof.
  intros Hk Hpk Hpv Hcase.
  destruct (first_match (listPairs (lines config)) k) as [e |] eqn:Hf.
  - clear Hcase.
    destruct (first_match_split _ _ _ Hf) as (pre & post & Hes & Hpre & Hkey).
    destruct (listPairs_located _ _ _ _ Hes) as (H0 & Hl & Hb & Hidle & Hsnd).
    assert (He : separator_ok (pair_sep e)).
    { pose proof (listPairs_separator_ok (lines config)) as Hall.
      rewrite List.Forall_forall in Hall. apply Hall.
      rewrite Hes. apply in_or_app. right. left. reflexivity. }
    destruct (separator_or_default_ok _ He) as (Hne & Ho & Hn).
    destruct (set_found_lines config k v e Hf) as (_ & _ & _ & Hset).
    (* the entries after the one replaced *)
    assert (Hpost : snd (run (fst (run newState
                                 (chars (take (Z.to_nat (pair_start e))
                                              (lines config)))))
                           (chars_from (pair_start e)
                              (drop (Z.to_nat (pair_start e)) (lines config))))
                    = e :: post).
    { pose proof Hes as Hes'. unfold listPairs, chars in Hes'.
      rewrite <- (take_drop (Z.to_nat (pair_start e)) (lines config)) in Hes' at 1.
      rewrite chars_from_app, run_app in Hes'. cbn [fst snd] in Hes'.
      unfold chars in Hsnd |- *. rewrite Hsnd in Hes'.
      apply app_inv_head in Hes'.
      rewrite length_take, Z.add_0_l in Hes'.
      replace (Z.of_nat (Z.to_nat (pair_start e) `min` length (lines config)))
        with (pair_start e) in Hes' by lia.
      exact Hes'. }
    destruct (first_entry_span _ _ _ _ _ (or_introl Hidle) Hpost)
      as (_ & _ & Hrest).
    replace (Z.to_nat (pair_start e + pair_len e - pair_start e))
      with (Z.to_nat (pair_len e)) in Hrest by lia.
    rewrite drop_drop in Hrest.
    replace (Z.to_nat (pair_start e) + Z.to_nat (pair_len e))%nat
      with (Z.to_nat (pair_start e + pair_len e)) in Hrest by lia.
    exists pre, [e], post,
      (Z.of_nat (length (take (Z.to_nat (pair_start e)) (lines config))) + 1
       - (pair_start e + pair_len e))%Z.
    eexists.
    split; [exact Hes |]. split; [exact Hpre |].
    split; [right; exists e; split; [reflexivity | exact Hkey] |].
    rewrite Hset. cbn [app].
    rewrite (listPairs_rendered_rest _ _ k _ v Hidle Hk Hpk Hpv Hne Ho Hn).
    rewrite Hsnd.
    rewrite (run_newState_shift _ (pair_start e + pair_len e)
               (Z.of_nat (length (take (Z.to_nat (pair_start e))
                                       (lines config))) + 1)).
    rewrite <- Hrest.
    split; [| split]; [| | reflexivity]; reflexivity.
  - destruct Hcase as [Hc | Hidle]; [contradiction |].
    destruct (last_observed_separator_ok (lines config)) as (Hne & Ho & Hn).
    exists (listPairs (lines config)), [], [], 0%Z. eexists.
    split; [now rewrite !app_nil_r |]. split; [exact Hf |].
    split; [left; split; reflexivity |].
    rewrite (set_not_found_lines config k v Hf).
    rewrite (listPairs_rendered_rest _ [] k _ v
               (final_state_idle _ Hidle) Hk Hpk Hpv Hne Ho Hn).
    split; [| split]; [| | reflexivity]; reflexivity.
Qed.

Lemma to_kv_shift (d : Z) (es : list Entry) :
  map to_kv (map (shift_entry d) es) = map to_kv es.
Proof. rewrite map_map. reflexivity. Qed.

Lemma replace_first_app (k v : string) (pre : list Entry)
      (rest : list KeyValuePair) :
  first_match pre k = None ->
  replace_first k v (map to_kv pre ++ rest)
  = map to_kv pre ++ replace_first k v rest.
Proof.
  unfold first_match. induction pre as [| e pre IH]; intros Hnone;
    [reflexivity |].
  simpl in Hnone |- *.
  destruct (String.eqb k (pair_key e)); [discriminate |].
  now rewrite (IH Hnone).
Qed.

(** X20. What [set] does to the entries: the first entry with the key
    gets the value, or an entry is added at the end when the key has none;
    every other entry keeps its key, its value and its place. *)
Theorem set_list (config : Properties) (k v : string) :
  k <> "" -> printable k = true -> printable v = true ->
  first_match (listPairs (lines config)) k <> None
  \/ scan_ends_idle (lines config) = true ->
  list_ (set config k (Some v)) = replace_first k v (list_ config).
Proof.
  intros Hk Hpk Hpv Hcase.
  destruct (set_entries config k v Hk Hpk Hpv Hcase)
    as (pre & old & post & d & e' & Hes & Hpre & Hold & Hk' & Hv' & Hset).
  change (list_ (set config k (Some v)))
    with (map to_kv (listPairs (lines (set config k (Some v))))).
  change (list_ config) with (map to_kv (listPairs (lines config))).
  rewrite Hset, Hes, !map_app, replace_first_app by exact Hpre.
  f_equal. cbn [map]. rewrite to_kv_shift.
  assert (Hkv : to_kv e' = {| kv_key := k; kv_value := v |})
    by (unfold to_kv; now rewrite Hk', Hv').
  rewrite Hkv.
  destruct Hold as [[-> ->] | (e & -> & Hke)]; [reflexivity |].
  cbn [map app replace_first to_kv kv_key]. now rewrite Hke, String.eqb_refl.
Qed.

Lemma set_list_witness :
  list_ (set {| lines := ["a=1"; String.append "b = x" (str BSL); "y";
                          "c : 3"; "b=4"] |} "b" (Some "new"))
  = replace_first "b" "new"
      (list_ {| lines := ["a=1"; String.append "b = x" (str BSL); "y";
                          "c : 3"; "b=4"] |}).
Proof.
  apply set_list; [discriminate | reflexivity | reflexivity |].
  left. discriminate.
Defined.

Lemma first_match_shift_value (d : Z) (es : list Entry) (k : string) :
  pair_value <$> first_match (map (shift_entry d) es) k
  = pair_value <$> first_match es k.
Proof.
  unfold first_match. induction es as [| e es IH]; [reflexivity |].
  simpl. destruct (String.eqb k (pair_key e)); [reflexivity | exact IH].
Qed.

Lemma first_match_single_other (e : Entry) (k' : string) :
  pair_key e <> k' -> first_match [e] k' = None.
Proof.
  intros Hne. unfold first_match. simpl.
  destruct (String.eqb_spec k' (pair_key e)); [congruence | reflexivity].
Qed.

(** X21. [set] does not touch the other keys: for every other key, [get]
    and [toMap] give after [set] what they gave before. *)
Theorem set_other_keys (config : Properties) (k v k' : string) :
  k <> "" -> printable k = true -> printable v = true ->
  first_match (listPairs (lines config)) k <> None
  \/ scan_ends_idle (lines config) = true ->
  k' <> k ->
  get (set config k (Some v)) k' = get config k'
  /\ toMap (set config k (Some v)) !! k' = toMap config !! k'.
Proof.
  intros Hk Hpk Hpv Hcase Hne.
  destruct (set_entries config k v Hk Hpk Hpv Hcase)
    as (pre & old & post & d & e' & Hes & Hpre & Hold & Hk' & Hv' & Hset).
  rewrite !get_first_match, !toMap_last_match. unfold last_match.
  rewrite Hset, Hes.
  assert (He' : first_match [e'] k' = None)
    by (apply first_match_single_other; congruence).
  assert (Hold' : first_match old k' = None /\ first_match (rev old) k' = None).
  { destruct Hold as [[-> _] | (e & -> & Hke)]; [split; reflexivity |].
    simpl rev. split; apply first_match_single_other; congruence. }
  destruct Hold' as [Ho1 Ho2].
  split.
  - change (pre ++ e' :: map (shift_entry d) post)
      with (pre ++ [e'] ++ map (shift_entry d) post).
    rewrite !first_match_app, He', Ho1.
    destruct (first_match pre k'); [reflexivity |].
    apply first_match_shift_value.
  - change (pre ++ e' :: map (shift_entry d) post)
      with (pre ++ [e'] ++ map (shift_entry d) post).
    rewrite !rev_app_distr, <- map_rev, !first_match_app.
    simpl rev at 2. rewrite He', Ho2.
    pose proof (first_match_shift_value d (rev post) k') as Hsh.
    destruct (first_match (map (shift_entry d) (rev post)) k'),
             (first_match (rev post) k');
      simpl in Hsh |- *; try discriminate Hsh; [exact Hsh | reflexivity].
Qed.

Lemma set_other_keys_witness :
  get (set {| lines := ["a=1"; String.append "b = x" (str BSL); "y";
                        "c : 3"; "c=4"] |} "b" (Some "new")) "c"
  = get {| lines := ["a=1"; String.append "b = x" (str BSL); "y";
                     "c : 3"; "c=4"] |} "c"
  /\ toMap (set {| lines := ["a=1"; String.append "b = x" (str BSL); "y";
                             "c : 3"; "c=4"] |} "b" (Some "new")) !! "c"
     = toMap {| lines := ["a=1"; String.append "b = x" (str BSL); "y";
                          "c : 3"; "c=4"] |} !! "c".
Proof.
  apply set_other_keys;
    [discriminate | reflexivity | reflexivity | left; discriminate
    | discriminate].
Defined.

(** ** Further properties: values and [unescape] *)





(** ** Further properties: counting and leading lines *)

(** X23. A Document has at most as many entries as lines. *)
Theorem entries_at_most_lines (ls : list string) :
  (length (listPairs ls) <= length ls)%nat.
Proof.
  unfold listPairs, chars. generalize 0%Z.
  assert (H : forall st z, line_ok st z ->
              (length (snd (run st (chars_from z ls))) <= length ls)%nat).
  { induction ls as [| l ls IH]; intros st z Hok; [simpl; lia |].
    simpl chars_from. rewrite run_app. cbn [fst snd].
    destruct (run_line_cases st z l Hok) as [Hok1 Hcase].
    specialize (IH _ _ Hok1). rewrite length_app.
    destruct Hcase as [[-> _] | [_ (e0 & -> & _)]]; simpl; lia. }
  intros z. apply H. left. apply idle_newState.
Qed.

Lemma drop_leading_empty_head (ls ds : list string) :
  drop_leading_empty ls = "" :: ds -> ds = [].
Proof.
  destruct ls as [| l rest]; [discriminate |].
  rewrite drop_leading_empty_drop_empty by discriminate.
  destruct (drop_empty (l :: rest)) as [| z zs] eqn:Hd.
  - intros H. now inversion H.
  - intros H. inversion H; subst.
    exfalso. now apply (drop_empty_head _ _ _ Hd).
Qed.

Lemma drop_leading_empty_suffix (ls : list string) (P : string -> Prop) :
  Forall P ls -> Forall P (drop_leading_empty ls).
Proof.
  induction 1 as [| l ls Hl Hls IH]; [constructor |].
  destruct ls as [| l2 ls]; [now constructor |].
  change (drop_leading_empty (l :: l2 :: ls))
    with (if (String.length l =? 0)%nat
          then drop_leading_empty (l2 :: ls) else l :: l2 :: ls).
  destruct (String.length l =? 0)%nat; [exact IH | now constructor].
Qed.

(** X24. The text [stringify] returns for a Document whose lines hold no
    line terminator does not start with an empty line: its leading empty
    lines are dropped. *)
Theorem stringify_no_leading_LF (ls : list string) :
  Forall (fun l => no_terminator l = true) ls ->
  strip_leading_LF (stringify {| lines := ls |}) = stringify {| lines := ls |}.
Proof.
  intros Hall. rewrite stringify_lines.
  pose proof (drop_leading_empty_suffix _ _ Hall) as Hd.
  destruct (drop_leading_empty ls) as [| d ds] eqn:Hdl; [reflexivity |].
  destruct d as [| c d].
  - apply drop_leading_empty_head in Hdl. subst ds. reflexivity.
  - inversion Hd as [| ? ? Hc _]; subst. simpl in Hc.
    apply andb_prop in Hc as [Hc _]. apply negb_true_iff in Hc.
    unfold is_line_terminator in Hc. apply orb_false_elim in Hc as [Hlf _].
    assert (Hj : exists t, join nl (add_trailing (String c d :: ds))
                           = String c t).
    { unfold add_trailing.
      destruct ((0 <? length (String c d :: ds))%nat
                && negb (line_empty (String c d :: ds)
                           (length (String c d :: ds) - 1)));
        [change ((String c d :: ds) ++ [""]) with (String c d :: (ds ++ [""])) |];
        rewrite join_cons_char; eexists; reflexivity. }
    destruct Hj as (t & ->). simpl. now rewrite Hlf.
Qed.

Lemma stringify_no_leading_LF_witness :
  strip_leading_LF (stringify {| lines := [""; ""; "a=1"; ""; "b=2"] |})
  = stringify {| lines := [""; ""; "a=1"; ""; "b=2"] |}.
Proof. apply stringify_no_leading_LF. repeat constructor. Defined.
